(** * halimath/healthcheck: liveness, readiness and info probes

    A shallow embedding of the Go package [healthcheck] and the proofs of
    the properties its specification states.

    Two revisions of the package are embedded, both from the sources:
    - [Plain]: [src/healthcheck.go], whose [New] takes the error log
      function and whose [handleReady] runs the checks itself;
    - [Timed]: the revision with functional options, a readiness timeout
      and the exported [ExecuteReadyChecks] (the last document of
      [src/example/main.go]).
    The bundled probes are the same code in both and are embedded once.

    Time is a discrete clock ([Z] ticks).  A check is a finite tree of
    actions (the [task] monad below): it can return, let a tick pass,
    wait on [ctx.Done()] or read [ctx.Err()].  Goroutines of one
    [errgroup.Group] are interleaved by an explicit scheduler; time only
    advances when no goroutine can act. *)

From Stdlib Require Import ZArith List Bool String Ascii Lia Arith PeanoNat.
From Stdlib Require Import DecimalString.
Import ListNotations.

Local Open Scope string_scope.
Local Open Scope Z_scope.

Set Implicit Arguments.

(* ------------------------------------------------------------------ *)
(** ** Errors ([errors], [fmt.Errorf] with one [%w], [context]) *)

(** A non-nil Go [error].  [errors.New] allocates, so two errors with the
    same text differ: [ptr] stands for the allocation. *)
Inductive error : Type :=
| errorString (ptr : nat) (s : string)        (* errors.New(s) *)
| wrapError (msg : string) (err : error)      (* fmt.Errorf("...%w...", err) *)
| Canceled                                    (* context.Canceled *)
| DeadlineExceeded.                           (* context.DeadlineExceeded *)

Fixpoint error_eqb (a b : error) : bool :=
  match a, b with
  | errorString p s, errorString q t => Nat.eqb p q && String.eqb s t
  | wrapError m e, wrapError n f => String.eqb m n && error_eqb e f
  | Canceled, Canceled => true
  | DeadlineExceeded, DeadlineExceeded => true
  | _, _ => false
  end.

(** [err.Error()] *)
Definition Error (e : error) : string :=
  match e with
  | errorString _ s => s
  | wrapError msg _ => msg
  | Canceled => "context canceled"
  | DeadlineExceeded => "context deadline exceeded"
  end.

(** [errors.Unwrap] *)
Definition Unwrap (e : error) : option error :=
  match e with
  | wrapError _ inner => Some inner
  | _ => None
  end.

(** [errors.Is]: walks the unwrap chain comparing with [==]. *)
Fixpoint errors_Is (e target : error) : bool :=
  error_eqb e target ||
  match e with
  | wrapError _ inner => errors_Is inner target
  | _ => false
  end.

(** [strconv.Itoa] / the verb [%d]. *)
Definition Itoa (z : Z) : string := NilZero.string_of_int (Z.to_int z).

(* ------------------------------------------------------------------ *)
(** ** Contexts *)

(** Why a context is done: the two values [ctx.Err()] can take besides
    nil. *)
Inductive reason : Type := canceled | deadlineExceeded.

Definition ctxError (r : reason) : error :=
  match r with
  | canceled => Canceled
  | deadlineExceeded => DeadlineExceeded
  end.

(** What a [context.Context] can signal: a deadline, and a cancellation
    by its owner.  [canceledAt] is the instant at which the context was
    (or will be) canceled by a [CancelFunc]. *)
Record Context : Type := mkContext {
  deadline : option Z;
  canceledAt : option Z
}.

(** [context.Background()] *)
Definition Background : Context := mkContext None None.

Definition reached (t : option Z) (now : Z) : bool :=
  match t with
  | Some d => d <=? now
  | None => false
  end.

(** Is [a] strictly earlier than [b] (an absent instant never comes)? *)
Definition earlier (a b : option Z) : bool :=
  match a, b with
  | Some x, Some y => x <? y
  | Some _, None => true
  | None, _ => false
  end.

(** Why [ctx] is done at instant [now], if it is: the reason of
    whichever signal came first. *)
Definition done (ctx : Context) (now : Z) : option reason :=
  if reached (canceledAt ctx) now && earlier (canceledAt ctx) (deadline ctx)
  then Some canceled
  else if reached (deadline ctx) now then Some deadlineExceeded
  else if reached (canceledAt ctx) now then Some canceled
  else None.

(** [ctx.Err()] at instant [now]. *)
Definition Err (ctx : Context) (now : Z) : option error :=
  option_map ctxError (done ctx now).

(** [context.WithDeadline(parent, d)]: a parent deadline that is already
    earlier is kept. *)
Definition WithDeadline (parent : Context) (d : Z) : Context :=
  match deadline parent with
  | Some cur => if cur <? d then parent else mkContext (Some d) (canceledAt parent)
  | None => mkContext (Some d) (canceledAt parent)
  end.

(** [context.WithTimeout(parent, timeout)] called at instant [now]. *)
Definition WithTimeout (parent : Context) (now timeout : Z) : Context :=
  WithDeadline parent (now + timeout).

(** The [CancelFunc] of a derived context called at instant [now]: it
    has no effect on a context that is already done. *)
Definition cancel (ctx : Context) (now : Z) : Context :=
  match done ctx now with
  | Some _ => ctx
  | None => mkContext (deadline ctx) (Some now)
  end.

(* ------------------------------------------------------------------ *)
(** ** Tasks: what a function called with a context does over time *)

Inductive task (A : Type) : Type :=
| Ret (a : A)                                    (* return a *)
| Sleep (k : task A)                             (* one tick passes, ctx is not looked at *)
| Await (onDone : reason -> task A) (k : task A) (* select { case <-ctx.Done(): onDone(ctx.Err())
                                                             case <-time.After(1 tick): k } *)
| Poll (k : option reason -> task A).            (* k(ctx.Err()) *)

Arguments Ret {A} a.
Arguments Sleep {A} k.
Arguments Await {A} onDone k.
Arguments Poll {A} k.

Fixpoint bind {A B : Type} (t : task A) (f : A -> task B) : task B :=
  match t with
  | Ret a => f a
  | Sleep k => Sleep (bind k f)
  | Await d k => Await (fun e => bind (d e) f) (bind k f)
  | Poll k => Poll (fun e => bind (k e) f)
  end.

Notation "x <- t ;; k" := (bind t (fun x => k))
  (at level 61, t at next level, right associativity).

(** [n] ticks pass whatever the context says ([time.Sleep]). *)
Fixpoint SleepFor {A : Type} (n : nat) (k : task A) : task A :=
  match n with
  | O => k
  | S m => Sleep (SleepFor m k)
  end.

(** Wait for [ctx.Done()] for at most [n] ticks. *)
Fixpoint AwaitFor {A : Type} (n : nat) (onDone : reason -> task A) (k : task A) : task A :=
  match n with
  | O => k
  | S m => Await onDone (AwaitFor m onDone k)
  end.

(** A synchronous call [f(ctx)] starting at instant [now]: the value
    returned and the instant of the return. *)
Fixpoint call {A : Type} (ctx : Context) (now : Z) (t : task A) : A * Z :=
  match t with
  | Ret a => (a, now)
  | Sleep k => call ctx (now + 1) k
  | Await d k =>
      match done ctx now with
      | Some r => call ctx now (d r)
      | None => call ctx (now + 1) k
      end
  | Poll k => call ctx now (k (done ctx now))
  end.

(** The number of actions of the longest run of a task. *)
Fixpoint size {A : Type} (t : task A) : nat :=
  match t with
  | Ret _ => 1
  | Sleep k => S (size k)
  | Await d k =>
      S (Nat.max (size k) (Nat.max (size (d canceled)) (size (d deadlineExceeded))))
  | Poll k =>
      S (Nat.max (size (k None))
           (Nat.max (size (k (Some canceled))) (size (k (Some deadlineExceeded)))))
  end.

(* ------------------------------------------------------------------ *)
(** ** Checks *)

(** [Check.Check(ctx)]: a task that returns a Go [error], nil
    ([None]) for success. *)
Definition Check : Type := task (option error).

(** [CheckFunc] is a function with the same signature; its [Check]
    method calls it. *)
Definition CheckFunc : Type := task (option error).
Definition CheckFunc_Check (f : CheckFunc) : Check := f.

(* ------------------------------------------------------------------ *)
(** ** [golang.org/x/sync/errgroup] *)

(** A goroutine started by [g.Go]: still running its function, or
    finished, with what its function returned. *)
Inductive goroutine : Type :=
| Running (t : task (option error))
| Finished (e : option error).

(** A group created by [errgroup.WithContext] with its goroutines. *)
Record Group : Type := mkGroup {
  g_ctx : Context;              (* the derived context handed to the goroutines *)
  g_now : Z;                    (* the clock *)
  g_routines : list goroutine;  (* one per call of g.Go, in call order *)
  g_err : option error          (* g.err, written under g.errOnce *)
}.

(** [errgroup.WithContext(ctx)] at instant [now]. *)
Definition errgroup_WithContext (ctx : Context) (now : Z) : Group :=
  mkGroup ctx now [] None.

(** [g.Go(f)] *)
Definition Go (g : Group) (f : task (option error)) : Group :=
  mkGroup (g_ctx g) (g_now g) (g_routines g ++ [Running f])%list (g_err g).

(** Can the goroutine act at this instant? *)
Definition enabled (ctx : Context) (now : Z) (r : goroutine) : bool :=
  match r with
  | Running (Ret _) => true
  | Running (Poll _) => true
  | Running (Await _ _) =>
      match done ctx now with Some _ => true | None => false end
  | Running (Sleep _) => false
  | Finished _ => false
  end.

Fixpoint enabled_from (ctx : Context) (now : Z) (i : nat) (rs : list goroutine) : list nat :=
  match rs with
  | [] => []
  | r :: rs' =>
      if enabled ctx now r then i :: enabled_from ctx now (S i) rs'
      else enabled_from ctx now (S i) rs'
  end.

Definition enabled_indices (g : Group) : list nat :=
  enabled_from (g_ctx g) (g_now g) 0 (g_routines g).

Fixpoint set_nth {A : Type} (i : nat) (x : A) (l : list A) : list A :=
  match l, i with
  | [], _ => []
  | _ :: l', O => x :: l'
  | y :: l', S j => y :: set_nth j x l'
  end.

(** One action of goroutine [i].  A return runs the deferred part of
    [g.Go]: the first non-nil error is kept and cancels the context. *)
Definition act (g : Group) (i : nat) : Group :=
  match nth_error (g_routines g) i with
  | Some (Running (Ret e)) =>
      let rs := set_nth i (Finished e) (g_routines g) in
      match e, g_err g with
      | Some err, None =>
          mkGroup (cancel (g_ctx g) (g_now g)) (g_now g) rs (Some err)
      | _, _ => mkGroup (g_ctx g) (g_now g) rs (g_err g)
      end
  | Some (Running (Poll k)) =>
      mkGroup (g_ctx g) (g_now g)
        (set_nth i (Running (k (done (g_ctx g) (g_now g)))) (g_routines g)) (g_err g)
  | Some (Running (Await d k)) =>
      match done (g_ctx g) (g_now g) with
      | Some r =>
          mkGroup (g_ctx g) (g_now g) (set_nth i (Running (d r)) (g_routines g)) (g_err g)
      | None => g
      end
  | _ => g
  end.

(** One tick passes for a goroutine that is blocked. *)
Definition advance (r : goroutine) : goroutine :=
  match r with
  | Running (Sleep k) => Running k
  | Running (Await _ k) => Running k
  | _ => r
  end.

Definition tick (g : Group) : Group :=
  mkGroup (g_ctx g) (g_now g + 1) (map advance (g_routines g)) (g_err g).

(** One step of the group: if some goroutines can act, the scheduler's
    choice [c] selects which one does; otherwise a tick passes. *)
Definition step (c : nat) (g : Group) : Group :=
  match enabled_indices g with
  | [] => tick g
  | en => act g (nth (Nat.modulo c (List.length en)) en O)
  end.

Definition finished (r : goroutine) : bool :=
  match r with
  | Finished _ => true
  | Running _ => false
  end.

Definition all_finished (g : Group) : bool := forallb finished (g_routines g).

(** A scheduler resolves the races: its [n]-th value chooses among the
    goroutines that can act at the [n]-th step. *)
Definition scheduler : Type := nat -> nat.

Fixpoint run (sched : scheduler) (fuel n : nat) (g : Group) : Group :=
  match fuel with
  | O => g
  | S fuel' =>
      if all_finished g then g
      else run sched fuel' (S n) (step (sched n) g)
  end.

Definition weight (r : goroutine) : nat :=
  match r with
  | Running t => size t
  | Finished _ => O
  end.

(** The number of steps after which every goroutine has returned. *)
Definition measure (g : Group) : nat :=
  fold_right (fun r n => (weight r + n)%nat) O (g_routines g).

(** [g.Wait()]: blocks until every goroutine has returned, cancels the
    context and returns [g.err]. *)
Definition Wait (sched : scheduler) (g : Group) : Group :=
  let g' := run sched (measure g) O g in
  mkGroup (cancel (g_ctx g') (g_now g')) (g_now g') (g_routines g') (g_err g').

(* ------------------------------------------------------------------ *)
(** ** [sync.RWMutex] *)

(** The state of a reader/writer lock: how many readers hold it and
    whether a writer does.  An operation that would block returns
    [None].  (That a writer waiting in [Lock] keeps new readers out is
    not part of the state.) *)
Record RWMutex : Type := mkRWMutex {
  readers : nat;
  writer : bool
}.

Definition unlocked : RWMutex := mkRWMutex O false.

Definition RLock (m : RWMutex) : option RWMutex :=
  if writer m then None else Some (mkRWMutex (S (readers m)) false).

Definition RUnlock (m : RWMutex) : RWMutex :=
  mkRWMutex (Nat.pred (readers m)) (writer m).

Definition Lock (m : RWMutex) : option RWMutex :=
  if writer m then None
  else match readers m with
       | O => Some (mkRWMutex O true)
       | S _ => None
       end.

Definition Unlock (m : RWMutex) : RWMutex :=
  mkRWMutex (readers m) false.

(* ------------------------------------------------------------------ *)
(** ** [net/http]: requests, response writers and the request multiplexer *)

Definition StatusOK : Z := 200.
Definition StatusNoContent : Z := 204.
Definition StatusBadRequest : Z := 400.
Definition StatusNotFound : Z := 404.
Definition StatusServiceUnavailable : Z := 503.

Definition MethodGet : string := "GET".

(** What the handlers can read of a [*http.Request]. *)
Record Request : Type := mkRequest {
  Method : string;
  Path : string;              (* r.URL.Path *)
  req_Context : Context       (* r.Context() *)
}.

(** A response writer that records what is written to it, as
    [httptest.ResponseRecorder] does. *)
Record ResponseWriter : Type := mkResponseWriter {
  Header : list (string * string);
  Code : option Z;            (* the status, once the header is written *)
  Body : string
}.

Definition NewRecorder : ResponseWriter := mkResponseWriter [] None "".

(** [w.Header().Set(key, value)] *)
Definition Header_Set (key value : string) (w : ResponseWriter) : ResponseWriter :=
  mkResponseWriter
    ((key, value) :: filter (fun kv => negb (String.eqb (fst kv) key)) (Header w))
    (Code w) (Body w).

(** [w.WriteHeader(code)]: only the first call counts. *)
Definition WriteHeader (code : Z) (w : ResponseWriter) : ResponseWriter :=
  match Code w with
  | Some _ => w
  | None => mkResponseWriter (Header w) (Some code) (Body w)
  end.

(** [w.Write(data)]: writes the header with 200 if it was not written. *)
Definition Write (data : string) (w : ResponseWriter) : ResponseWriter :=
  let w' := WriteHeader StatusOK w in
  mkResponseWriter (Header w') (Code w') (Body w' ++ data).

(** [w.Result().StatusCode] *)
Definition StatusCode (w : ResponseWriter) : Z :=
  match Code w with
  | Some c => c
  | None => StatusOK
  end.

Definition StatusMethodNotAllowed : Z := 405.

(** [http.Error(w, error, code)] *)
Definition http_Error (w : ResponseWriter) (text : string) (code : Z) : ResponseWriter :=
  Write (text ++ String (ascii_of_nat 10) "")
    (WriteHeader code
       (Header_Set "X-Content-Type-Options" "nosniff"
          (Header_Set "Content-Type" "text/plain; charset=utf-8" w))).

(** [http.NotFound] *)
Definition NotFound (w : ResponseWriter) : ResponseWriter :=
  http_Error w "404 page not found" StatusNotFound.

(** The methods of the handler that are mounted on its mux. *)
Inductive handlerFunc : Type := handleLive_ | handleReady_ | handleInfo_.

(** A registered pattern, ["[METHOD ]PATH"], with its handler.  Of the
    patterns of [http.ServeMux] the embedding has those that name a path
    literally, without host, wildcard or trailing slash: such a pattern
    matches the requests with exactly this path, and with its method if
    it names one. *)
Record route : Type := mkRoute {
  rt_method : option string;
  rt_path : string;
  rt_handler : handlerFunc
}.

Definition ServeMux : Type := list route.

Definition NewServeMux : ServeMux := [].

(** The method and the path of a pattern. *)
Definition parse_pattern (pattern : string) : option string * string :=
  match String.index 0 " " pattern with
  | Some (S i) =>
      (Some (String.substring 0 (S i) pattern),
       String.substring (S (S i)) (String.length pattern - S (S i)) pattern)
  | Some O => (None, String.substring 1 (String.length pattern - 1) pattern)
  | None => (None, pattern)
  end.

Definition option_string_eqb (a b : option string) : bool :=
  match a, b with
  | Some x, Some y => String.eqb x y
  | None, None => true
  | _, _ => false
  end.

(** Does a pattern's method admit the request's?  [GET] admits [HEAD]. *)
Definition method_matches (m : option string) (method : string) : bool :=
  match m with
  | None => true
  | Some x => String.eqb x method || (String.eqb x "GET" && String.eqb method "HEAD")
  end.

Inductive found : Type :=
| Matched (f : handlerFunc)
| NotAllowed (allow : list string)    (* the path is registered, for other methods *)
| NoMatch.

(** [mux.Handler(r)]: among the patterns with the request's path, one
    that names the method wins over one that names none. *)
Definition mux_find (mux : ServeMux) (method path : string) : found :=
  let same := filter (fun rt => String.eqb (rt_path rt) path) mux in
  match find (fun rt => match rt_method rt with
                        | Some _ => method_matches (rt_method rt) method
                        | None => false
                        end) same with
  | Some rt => Matched (rt_handler rt)
  | None =>
      match find (fun rt => match rt_method rt with
                            | None => true
                            | Some _ => false
                            end) same with
      | Some rt => Matched (rt_handler rt)
      | None =>
          match same with
          | [] => NoMatch
          | _ => NotAllowed (flat_map (fun rt => match rt_method rt with
                                                 | Some m => [m]
                                                 | None => []
                                                 end) same)
          end
      end
  end.

(** [mux.HandleFunc(pattern, f)]: panics ([None]) on an empty pattern and
    on a pattern that conflicts with a registered one. *)
Definition HandleFunc (mux : ServeMux) (pattern : string) (f : handlerFunc)
  : option ServeMux :=
  if String.eqb pattern "" then None
  else
    let (m, path) := parse_pattern pattern in
    if existsb (fun rt => option_string_eqb (rt_method rt) m && String.eqb (rt_path rt) path) mux
    then None
    else Some (mux ++ [mkRoute m path f])%list.

(** The answer of the mux to a request that matches no handler. *)
Definition unmatched (fd : found) (w : ResponseWriter) : ResponseWriter :=
  match fd with
  | NotAllowed allow =>
      http_Error (Header_Set "Allow" (String.concat ", " allow) w)
        "Method Not Allowed" StatusMethodNotAllowed
  | _ => NotFound w
  end.

(** The package variables, with their initial values. *)
Definition LivePath : string := "/livez".
Definition ReadyPath : string := "/readyz".
Definition InfoPath : string := "/infoz".

(* ------------------------------------------------------------------ *)
(** ** [encoding/json] and [runtime/debug] *)

(** The values of type [any] that the info data is made of.  [VFunc]
    stands for the values [json.Marshal] rejects (functions, channels). *)
#[local] Unset Elimination Schemes.
Inductive any : Type :=
| VNil
| VBool (b : bool)
| VInt (z : Z)
| VString (s : string)
| VSlice (l : list any)
| VMap (m : list (string * any))
| VFunc.
#[local] Set Elimination Schemes.

(** A Go [map[string]any]: a list of bindings with distinct keys. *)
Definition gomap : Type := list (string * any).

(** [m[k] = v] *)
Definition map_set (k : string) (v : any) (m : gomap) : gomap :=
  (k, v) :: filter (fun kv => negb (String.eqb (fst kv) k)) m.

Fixpoint map_get (k : string) (m : gomap) : option any :=
  match m with
  | [] => None
  | (k', v) :: m' => if String.eqb k' k then Some v else map_get k m'
  end.

Definition hexdigit (n : nat) : ascii :=
  nth n (list_ascii_of_string "0123456789abcdef") "0"%char.

(** The JSON encoding of one byte of a string.  The bytes above 0x7f
    are copied: the strings are taken to be valid UTF-8 without U+2028
    and U+2029. *)
Definition json_escape_byte (c : ascii) : string :=
  let n := nat_of_ascii c in
  if Nat.eqb n 34 then "\" ++ String c ""
  else if Nat.eqb n 92 then "\\"
  else if Nat.eqb n 8 then "\b"
  else if Nat.eqb n 12 then "\f"
  else if Nat.eqb n 10 then "\n"
  else if Nat.eqb n 13 then "\r"
  else if Nat.eqb n 9 then "\t"
  else if Nat.ltb n 32 || Nat.eqb n 60 || Nat.eqb n 62 || Nat.eqb n 38
       then "\u00" ++ String (hexdigit (Nat.div n 16)) (String (hexdigit (Nat.modulo n 16)) "")
  else String c "".

Fixpoint json_escape (s : string) : string :=
  match s with
  | EmptyString => ""
  | String c s' => json_escape_byte c ++ json_escape s'
  end.

Definition json_quote (s : string) : string :=
  String (ascii_of_nat 34) (json_escape s ++ String (ascii_of_nat 34) "").

(** Insertion sort of the fields of an object by key, in byte order. *)
Fixpoint insert_field (f : string * string) (l : list (string * string))
  : list (string * string) :=
  match l with
  | [] => [f]
  | g :: l' => if String.leb (fst f) (fst g) then f :: l else g :: insert_field f l'
  end.

Definition sort_fields (l : list (string * string)) : list (string * string) :=
  fold_right insert_field [] l.

Definition json_field (f : string * string) : string :=
  json_quote (fst f) ++ ":" ++ snd f.

(** [json.Marshal(v)]; [None] is the error for an unsupported value. *)
Fixpoint json_Marshal (v : any) : option string :=
  match v with
  | VNil => Some "null"
  | VBool true => Some "true"
  | VBool false => Some "false"
  | VInt z => Some (Itoa z)
  | VString s => Some (json_quote s)
  | VSlice l =>
      let fix elems (l : list any) : option (list string) :=
        match l with
        | [] => Some []
        | x :: l' =>
            match json_Marshal x, elems l' with
            | Some s, Some r => Some (s :: r)
            | _, _ => None
            end
        end in
      option_map (fun es => "[" ++ String.concat "," es ++ "]") (elems l)
  | VMap m =>
      let fix fields (m : list (string * any)) : option (list (string * string)) :=
        match m with
        | [] => Some []
        | (k, x) :: m' =>
            match json_Marshal x, fields m' with
            | Some s, Some r => Some ((k, s) :: r)
            | _, _ => None
            end
        end in
      option_map
        (fun fs => "{" ++ String.concat "," (map json_field (sort_fields fs)) ++ "}")
        (fields m)
  | VFunc => None
  end.

(** [debug.BuildInfo], the part that is read. *)
Record BuildInfo : Type := mkBuildInfo {
  Main_Version : string;
  Settings : list (string * string)      (* Key, Value *)
}.

(** The loop over [info.Settings]. *)
Definition settings_map (ss : list (string * string)) : gomap :=
  fold_left (fun m s => map_set (fst s) (VString (snd s)) m) ss [].

(** The info data as [EnableInfo] completes it before marshalling.
    [info] is what [debug.ReadBuildInfo] returns, [None] when its [ok]
    is false. *)
Definition info_data (info : option BuildInfo) (infoData : option gomap) : gomap :=
  let infoData := match infoData with
                  | None => []
                  | Some m => m
                  end in
  match info with
  | Some bi =>
      map_set "build_settings" (VMap (settings_map (Settings bi)))
        (map_set "version" (VString (Main_Version bi)) infoData)
  | None => infoData
  end.

(* ------------------------------------------------------------------ *)
(** ** The bundled probes *)

Definition ErrURLCheckFailed : error := errorString 1 "URL check failed".
Definition ErrPingCheckFailed : error := errorString 2 "ping check failed".

(** An outgoing request that [http.NewRequestWithContext] accepted. *)
Record OutRequest : Type := mkOutRequest {
  out_Method : string;
  out_URL : string
}.

Record Response : Type := mkResponse {
  res_StatusCode : Z
}.

(** [*http.Client]: [Do] takes time and sees the context the request
    was made with. *)
Record Client : Type := mkClient {
  Do : OutRequest -> task (Response + error)
}.

(** [Pinger] *)
Record Pinger : Type := mkPinger {
  PingContext : task (option error)
}.

Section Probes.

(** The environment of the URL probe: how [net/http] validates a
    method and a URL, and the default client. *)
Variable NewRequestWithContext : string -> string -> OutRequest + error.
Variable DefaultClient : Client.

Definition CheckHTTPResponse (method url : string) (client : option Client) : Check :=
  let client := match client with
                | None => DefaultClient
                | Some c => c
                end in
  CheckFunc_Check
    (match NewRequestWithContext method url with
     | inr err =>
         Ret (Some (wrapError
                      (Error ErrURLCheckFailed ++ ": failed to create http request for "
                         ++ method ++ " " ++ url ++ ": " ++ Error err)
                      ErrURLCheckFailed))
     | inl req =>
         r <- Do client req ;;
         match r with
         | inr err =>
             Ret (Some (wrapError
                          (Error ErrURLCheckFailed ++ ": failed to issue http request for "
                             ++ method ++ " " ++ url ++ ": " ++ Error err)
                          ErrURLCheckFailed))
         | inl res =>
             if res_StatusCode res >=? StatusBadRequest
             then Ret (Some (wrapError
                               (Error ErrURLCheckFailed ++ ": got failing status code for "
                                  ++ method ++ " " ++ url ++ ": " ++ Itoa (res_StatusCode res))
                               ErrURLCheckFailed))
             else Ret None
         end
     end).

Definition CheckURL (url : string) : Check :=
  CheckHTTPResponse MethodGet url None.

End Probes.

Definition CheckPing (pinger : Pinger) : Check :=
  CheckFunc_Check
    (err <- PingContext pinger ;;
     match err with
     | Some e => Ret (Some (wrapError (Error ErrPingCheckFailed ++ ": " ++ Error e)
                              ErrPingCheckFailed))
     | None => Ret None
     end).

(* ------------------------------------------------------------------ *)
(** ** What a request leaves behind *)

(** [ErrorLogFunc] / [ErrorLogger]: a callback that returns nothing.  The
    embedding keeps its identity and records its invocations. *)
Inductive callback : Type := Callback (id : nat).

Inductive event : Type :=
| Invoke (f : callback) (err : error).       (* f(err) *)

(** The effects of serving one request. *)
Record served : Type := mkServed {
  sv_writer : ResponseWriter;   (* the response writer after the handler returned *)
  sv_trace : list event;        (* the callbacks invoked, in order *)
  sv_routines : list goroutine; (* the goroutines started, as they are at the return *)
  sv_now : Z                    (* the instant at which the handler returned *)
}.

(** The [for] loop that starts one goroutine per check. *)
Definition go_all (g : Group) (cs : list Check) : Group :=
  fold_left Go cs g.

(* ------------------------------------------------------------------ *)
(** ** The handler of [src/healthcheck.go] *)

Module Plain.

Record Handler : Type := mkHandler {
  errorLogFunc : option callback;
  checks : list Check;
  lock : RWMutex;
  mux : ServeMux;
  infoPayload : string
}.

(** [New]: the two [HandleFunc] calls would panic on equal paths; with
    the paths above they succeed. *)
Definition New (errorLogFunc : option callback) : option Handler :=
  match HandleFunc NewServeMux LivePath handleLive_ with
  | None => None
  | Some m1 =>
      match HandleFunc m1 ReadyPath handleReady_ with
      | None => None
      | Some m2 => Some (mkHandler errorLogFunc [] unlocked m2 "")
      end
  end.

(** [AddCheck]: [None] while the lock cannot be taken. *)
Definition AddCheck (h : Handler) (c : Check) : option Handler :=
  match Lock (lock h) with
  | None => None
  | Some l =>
      Some (mkHandler (errorLogFunc h) (checks h ++ [c])%list (Unlock l)
              (mux h) (infoPayload h))
  end.

Definition AddCheckFunc (h : Handler) (c : CheckFunc) : option Handler :=
  AddCheck h (CheckFunc_Check c).

(** [EnableInfo]: [None] is a panic, of [json.Marshal] failing or of
    [HandleFunc]. *)
Definition EnableInfo (info : option BuildInfo) (h : Handler) (infoData : option gomap)
  : option Handler :=
  match json_Marshal (VMap (info_data info infoData)) with
  | None => None
  | Some payload =>
      match HandleFunc (mux h) InfoPath handleInfo_ with
      | None => None
      | Some m => Some (mkHandler (errorLogFunc h) (checks h) (lock h) m payload)
      end
  end.

Definition handleLive (h : Handler) (now : Z) (w : ResponseWriter) (r : Request)
  : option (Handler * served) :=
  Some (h, mkServed (WriteHeader StatusNoContent w) [] [] now).

(** [handleReady]: [None] while the read lock cannot be taken. *)
Definition handleReady (sched : scheduler) (h : Handler) (now : Z)
    (w : ResponseWriter) (r : Request) : option (Handler * served) :=
  match RLock (lock h) with
  | None => None
  | Some l =>
      let eg := errgroup_WithContext (req_Context r) now in
      let eg := go_all eg (checks h) in
      let eg := Wait sched eg in
      let h' := mkHandler (errorLogFunc h) (checks h) (RUnlock l) (mux h) (infoPayload h) in
      match g_err eg with
      | Some err =>
          let trace := match errorLogFunc h with
                       | Some f => [Invoke f err]
                       | None => []
                       end in
          Some (h', mkServed (WriteHeader StatusServiceUnavailable w) trace
                      (g_routines eg) (g_now eg))
      | None =>
          Some (h', mkServed (WriteHeader StatusNoContent w) []
                      (g_routines eg) (g_now eg))
      end
  end.

Definition handleInfo (h : Handler) (now : Z) (w : ResponseWriter) (r : Request)
  : option (Handler * served) :=
  let w := Header_Set "Content-Type" "application/json; charset=UTF-8" w in
  let w := Header_Set "Content-Lengt"
             (Itoa (Z.of_nat (String.length (infoPayload h)))) w in
  let w := WriteHeader StatusOK w in
  let w := Write (infoPayload h) w in
  Some (h, mkServed w [] [] now).

(** [ServeHTTP]: the mux calls the method registered for the path, or
    answers 404. *)
Definition ServeHTTP (sched : scheduler) (h : Handler) (now : Z)
    (w : ResponseWriter) (r : Request) : option (Handler * served) :=
  match mux_find (mux h) (Method r) (Path r) with
  | Matched handleLive_ => handleLive h now w r
  | Matched handleReady_ => handleReady sched h now w r
  | Matched handleInfo_ => handleInfo h now w r
  | fd => Some (h, mkServed (unmatched fd w) [] [] now)
  end.

End Plain.

(* ------------------------------------------------------------------ *)
(** ** The handler with options and a readiness timeout
       (the last revision in [src/example/main.go]) *)

Module Timed.

(** [time.Second], in the unit of [time.Duration]. *)
Definition Second : Z := 1000000000.

Definition DefaultReadynessCheckTimeout : Z := 10 * Second.

Record Handler : Type := mkHandler {
  ErrorLogger : option callback;
  ReadynessTimeout : Z;
  checks : list Check;
  lock : RWMutex;
  mux : ServeMux;
  infoPayload : string
}.

Definition Option : Type := Handler -> Handler.

Definition WithErrorLogger (l : option callback) : Option :=
  fun h => mkHandler l (ReadynessTimeout h) (checks h) (lock h) (mux h) (infoPayload h).

Definition WithReadynessTimeout (t : Z) : Option :=
  fun h => mkHandler (ErrorLogger h) t (checks h) (lock h) (mux h) (infoPayload h).

(** The loop over [opts]: a nil option is skipped. *)
Definition apply_opts (opts : list (option Option)) (h : Handler) : Handler :=
  fold_left (fun h opt => match opt with
                          | Some f => f h
                          | None => h
                          end) opts h.

Definition New (opts : list (option Option)) : option Handler :=
  let h := mkHandler None DefaultReadynessCheckTimeout [] unlocked NewServeMux "" in
  let h := apply_opts opts h in
  match HandleFunc (mux h) LivePath handleLive_ with
  | None => None
  | Some m1 =>
      match HandleFunc m1 ReadyPath handleReady_ with
      | None => None
      | Some m2 =>
          Some (mkHandler (ErrorLogger h) (ReadynessTimeout h) (checks h) (lock h) m2
                  (infoPayload h))
      end
  end.

Definition AddCheck (h : Handler) (c : Check) : option Handler :=
  match Lock (lock h) with
  | None => None
  | Some l =>
      Some (mkHandler (ErrorLogger h) (ReadynessTimeout h) (checks h ++ [c])%list
              (Unlock l) (mux h) (infoPayload h))
  end.

Definition AddCheckFunc (h : Handler) (c : CheckFunc) : option Handler :=
  AddCheck h (CheckFunc_Check c).

(** What [ExecuteReadyChecks] returns and leaves behind. *)
Record executed : Type := mkExecuted {
  ex_err : option error;        (* the returned error *)
  ex_trace : list event;        (* the callbacks invoked, in order *)
  ex_routines : list goroutine; (* the goroutines started, as they are at the return *)
  ex_now : Z                    (* the instant of the return *)
}.

(** The context the checks are run with: the caller's, bounded by the
    readiness timeout if there is one. *)
Definition ready_context (h : Handler) (now : Z) (ctx : Context) : Context :=
  if ReadynessTimeout h >? 0 then WithTimeout ctx now (ReadynessTimeout h) else ctx.

(** [ExecuteReadyChecks]: [None] while the read lock cannot be taken. *)
Definition ExecuteReadyChecks (sched : scheduler) (h : Handler) (now : Z) (ctx : Context)
  : option (Handler * executed) :=
  match RLock (lock h) with
  | None => None
  | Some l =>
      let ctx := ready_context h now ctx in
      let eg := errgroup_WithContext ctx now in
      let eg := go_all eg (checks h) in
      let eg := Wait sched eg in
      let h' := mkHandler (ErrorLogger h) (ReadynessTimeout h) (checks h) (RUnlock l)
                  (mux h) (infoPayload h) in
      match g_err eg with
      | Some err =>
          let trace := match ErrorLogger h with
                       | Some f => [Invoke f err]
                       | None => []
                       end in
          Some (h', mkExecuted (Some err) trace (g_routines eg) (g_now eg))
      | None => Some (h', mkExecuted None [] (g_routines eg) (g_now eg))
      end
  end.

Definition EnableInfo (info : option BuildInfo) (h : Handler) (infoData : option gomap)
  : option Handler :=
  match json_Marshal (VMap (info_data info infoData)) with
  | None => None
  | Some payload =>
      match HandleFunc (mux h) InfoPath handleInfo_ with
      | None => None
      | Some m =>
          Some (mkHandler (ErrorLogger h) (ReadynessTimeout h) (checks h) (lock h) m payload)
      end
  end.

Definition handleLive (h : Handler) (now : Z) (w : ResponseWriter) (r : Request)
  : option (Handler * served) :=
  Some (h, mkServed (WriteHeader StatusNoContent w) [] [] now).

Definition handleReady (sched : scheduler) (h : Handler) (now : Z)
    (w : ResponseWriter) (r : Request) : option (Handler * served) :=
  match ExecuteReadyChecks sched h now (req_Context r) with
  | None => None
  | Some (h', x) =>
      match ex_err x with
      | Some _ =>
          Some (h', mkServed (WriteHeader StatusServiceUnavailable w) (ex_trace x)
                      (ex_routines x) (ex_now x))
      | None =>
          Some (h', mkServed (WriteHeader StatusNoContent w) (ex_trace x)
                      (ex_routines x) (ex_now x))
      end
  end.

Definition handleInfo (h : Handler) (now : Z) (w : ResponseWriter) (r : Request)
  : option (Handler * served) :=
  let w := Header_Set "Content-Type" "application/json; charset=UTF-8" w in
  let w := Header_Set "Content-Length"
             (Itoa (Z.of_nat (String.length (infoPayload h)))) w in
  let w := WriteHeader StatusOK w in
  let w := Write (infoPayload h) w in
  Some (h, mkServed w [] [] now).

Definition ServeHTTP (sched : scheduler) (h : Handler) (now : Z)
    (w : ResponseWriter) (r : Request) : option (Handler * served) :=
  match mux_find (mux h) (Method r) (Path r) with
  | Matched handleLive_ => handleLive h now w r
  | Matched handleReady_ => handleReady sched h now w r
  | Matched handleInfo_ => handleInfo h now w r
  | fd => Some (h, mkServed (unmatched fd w) [] [] now)
  end.

End Timed.

(* ------------------------------------------------------------------ *)
(** ** Notions the statements use *)

(** What one action makes of the goroutine that takes it. *)
Inductive acts (ctx : Context) (now : Z) : goroutine -> goroutine -> Prop :=
| acts_return e : acts ctx now (Running (Ret e)) (Finished e)
| acts_poll k : acts ctx now (Running (Poll k)) (Running (k (done ctx now)))
| acts_done d k r :
    done ctx now = Some r -> acts ctx now (Running (Await d k)) (Running (d r)).

(** The sum of the weights of the goroutines. *)
Definition sumw (rs : list goroutine) : nat :=
  fold_right (fun r n => (weight r + n)%nat) O rs.

(** A goroutine whose function returned a non-nil error. *)
Definition failed (r : goroutine) : bool :=
  match r with
  | Finished (Some _) => true
  | _ => false
  end.

(** What [g.err] records: it is nil as long as no goroutine has failed,
    and otherwise an error that a goroutine returned. *)
Definition err_recorded (g : Group) : Prop :=
  (g_err g = None -> Forall (fun r => failed r = false) (g_routines g))
  /\ (forall e, g_err g = Some e -> In (Finished (Some e)) (g_routines g)).

(** One evaluation of the registry [cs]: the group is made, one
    goroutine is started per check, and the caller waits. *)
Definition evaluate (sched : scheduler) (ctx : Context) (now : Z) (cs : list Check) : Group :=
  Wait sched (go_all (errgroup_WithContext ctx now) cs).

(** The state in which [Wait] finds the group when the last goroutine
    has returned. *)
Definition awaited (sched : scheduler) (ctx : Context) (now : Z) (cs : list Check) : Group :=
  run sched (measure (mkGroup ctx now (map Running cs) None)) O
    (mkGroup ctx now (map Running cs) None).

(** A failing check: it returns a non-nil error whatever it sees of the
    context and however long it takes. *)
Fixpoint always_fails (t : task (option error)) : Prop :=
  match t with
  | Ret (Some _) => True
  | Ret None => False
  | Sleep k => always_fails k
  | Await d k => always_fails k /\ forall r, always_fails (d r)
  | Poll k => forall x, always_fails (k x)
  end.

Definition fails_or_failed (r : goroutine) : Prop :=
  match r with
  | Running t => always_fails t
  | Finished (Some _) => True
  | Finished None => False
  end.



(** [return ctx.Err()] *)
Definition return_ctx_err : reason -> task (option error) :=
  fun r => Ret (Some (ctxError r)).






(** The handler of the counterexample to C1: a timeout of one tick, and
    one check that ignores its context, takes three ticks and succeeds. *)
Definition slow_handler : Timed.Handler :=
  Timed.mkHandler None 1 [SleepFor 3 (Ret None)] unlocked NewServeMux "".

(** The handler of the timeout test: a timeout of one tick, and one
    check that waits ten ticks or until its context is done. *)
Definition patient_handler : Timed.Handler :=
  Timed.mkHandler None 1 [AwaitFor 10 return_ctx_err (Ret None)] unlocked NewServeMux "".

(** The handlers of the tests: a callback, and the checks of the
    failing and of the passing case. *)
Definition caboom : error := errorString 3 "caboom".

Definition failing_timed : Timed.Handler :=
  Timed.mkHandler (Some (Callback 1)) Timed.DefaultReadynessCheckTimeout
    [Ret None; Ret (Some caboom)] unlocked NewServeMux "".

Definition failing_plain : Plain.Handler :=
  Plain.mkHandler (Some (Callback 1)) [Ret None; Ret (Some caboom)] unlocked NewServeMux "".


Definition passing_plain : Plain.Handler :=
  Plain.mkHandler (Some (Callback 1)) [Ret None; Sleep (Ret None)] unlocked NewServeMux "".

Definition get (path : string) : Request := mkRequest MethodGet path Background.

(** The pinger of the test of [CheckPing]: its ping fails. *)
Definition ping_cause : error := errorString 4 "failed".

Definition failing_pinger : Pinger := mkPinger (Ret (Some ping_cause)).

(** An environment for the URL probe: every method and URL is
    accepted, and the client answers at once with a given status. *)
Definition accept_all (method url : string) : OutRequest + error :=
  inl (mkOutRequest method url).

Definition answering (code : Z) : Client :=
  mkClient (fun _ => Ret (inl (mkResponse code))).

(** The calls a program can make on a handler of [src/healthcheck.go]. *)
Inductive operation : Type :=
| OpAddCheck (c : Check)
| OpAddCheckFunc (c : CheckFunc)
| OpEnableInfo (info : option BuildInfo) (infoData : option gomap)
| OpServeHTTP (sched : scheduler) (now : Z) (w : ResponseWriter) (r : Request).

Definition perform (h : Plain.Handler) (op : operation) : option Plain.Handler :=
  match op with
  | OpAddCheck c => Plain.AddCheck h c
  | OpAddCheckFunc c => Plain.AddCheckFunc h c
  | OpEnableInfo info infoData => Plain.EnableInfo info h infoData
  | OpServeHTTP sched now w r => option_map fst (Plain.ServeHTTP sched h now w r)
  end.

(** A sequence of calls, one after the other; [None] when one of them
    panics or blocks. *)
Fixpoint perform_all (h : Plain.Handler) (ops : list operation) : option Plain.Handler :=
  match ops with
  | [] => Some h
  | op :: ops' =>
      match perform h op with
      | Some h' => perform_all h' ops'
      | None => None
      end
  end.

(** The handler made by [New] after a sequence of calls. *)
Definition after (errorLogFunc : option callback) (ops : list operation)
  : option Plain.Handler :=
  match Plain.New errorLogFunc with
  | Some h => perform_all h ops
  | None => None
  end.

(** The checks a call registers. *)
Definition registers (op : operation) : list Check :=
  match op with
  | OpAddCheck c => [c]
  | OpAddCheckFunc c => [CheckFunc_Check c]
  | _ => []
  end.

Definition enables (op : operation) : bool :=
  match op with
  | OpEnableInfo _ _ => true
  | _ => false
  end.

(** The routes of a handler before and after [EnableInfo]. *)
Definition base_mux : ServeMux :=
  [mkRoute None LivePath handleLive_; mkRoute None ReadyPath handleReady_].

Definition info_mux : ServeMux :=
  (base_mux ++ [mkRoute None InfoPath handleInfo_])%list.

(** The state of a handler between two calls. *)
Definition at_rest (h : Plain.Handler) : Prop :=
  Plain.lock h = unlocked /\ (Plain.mux h = base_mux \/ Plain.mux h = info_mux).

(** The calls of a program that registers two checks, enables the
    info endpoint and serves a readiness request. *)
Definition sample_calls : list operation :=
  [OpAddCheck (Ret None);
   OpEnableInfo (Some (mkBuildInfo "v1.0.0" [("vcs", "git")])) None;
   OpAddCheckFunc (Sleep (Ret (Some caboom)));
   OpServeHTTP (fun n => n) 0 NewRecorder (get ReadyPath)].

(** *** A handler shared by concurrent callers *)

(** A readiness evaluation in flight: the registry as it was when the
    evaluation started, and the group it waits for. *)
Record flight : Type := mkFlight {
  fl_snapshot : list Check;
  fl_group : Group
}.

Record system : Type := mkSystem {
  sys_handler : Plain.Handler;
  sys_flights : list flight
}.

Definition with_lock (h : Plain.Handler) (l : RWMutex) : Plain.Handler :=
  Plain.mkHandler (Plain.errorLogFunc h) (Plain.checks h) l (Plain.mux h)
    (Plain.infoPayload h).

(** The steps of the callers of [handleReady] and [AddCheck], interleaved:
    - [handleReady] takes the read lock and starts one goroutine per
      check of [h.checks];
    - the group of an evaluation in flight makes a step;
    - an evaluation whose goroutines have all returned leaves [Wait] and
      releases the read lock (the deferred [RUnlock]);
    - [AddCheck] takes the write lock, appends and releases it, which it
      can do only when [Lock] does not block. *)
Inductive sys_step : system -> system -> Prop :=
| sys_begin h fls l r now :
    RLock (Plain.lock h) = Some l ->
    sys_step (mkSystem h fls)
      (mkSystem (with_lock h l)
         (fls ++ [mkFlight (Plain.checks h)
                    (go_all (errgroup_WithContext (req_Context r) now) (Plain.checks h))])%list)
| sys_run h fls i fl c :
    nth_error fls i = Some fl ->
    all_finished (fl_group fl) = false ->
    sys_step (mkSystem h fls)
      (mkSystem h (set_nth i (mkFlight (fl_snapshot fl) (step c (fl_group fl))) fls))
| sys_end h fls1 fl fls2 :
    all_finished (fl_group fl) = true ->
    sys_step (mkSystem h (fls1 ++ fl :: fls2)%list)
      (mkSystem (with_lock h (RUnlock (Plain.lock h))) (fls1 ++ fls2)%list)
| sys_register h fls c h' :
    Plain.AddCheck h c = Some h' ->
    sys_step (mkSystem h fls) (mkSystem h' fls).

Inductive sys_steps : system -> system -> Prop :=
| sys_stay s : sys_steps s s
| sys_more s1 s2 s3 : sys_step s1 s2 -> sys_steps s2 s3 -> sys_steps s1 s3.

(** What holds of the shared handler at every moment: the read lock is
    held once per evaluation in flight, and every such evaluation runs
    the checks of the registry as it still is. *)
Definition sys_inv (s : system) : Prop :=
  writer (Plain.lock (sys_handler s)) = false
  /\ readers (Plain.lock (sys_handler s)) = List.length (sys_flights s)
  /\ Forall (fun fl => fl_snapshot fl = Plain.checks (sys_handler s)
                       /\ List.length (g_routines (fl_group fl))
                          = List.length (fl_snapshot fl))
       (sys_flights s).

(* ------------------------------------------------------------------ *)
(** ** Notions of the further properties *)

(** Every error the check can return satisfies [P]. *)
Fixpoint may_return (P : error -> Prop) (t : task (option error)) : Prop :=
  match t with
  | Ret None => True
  | Ret (Some e) => P e
  | Sleep k => may_return P k
  | Await d k => (forall r, may_return P (d r)) /\ may_return P k
  | Poll k => forall x, may_return P (k x)
  end.

Definition returns_within (P : error -> Prop) (r : goroutine) : Prop :=
  match r with
  | Running t => may_return P t
  | Finished (Some e) => P e
  | Finished None => True
  end.

(** The checks the package bundles, in an environment of the URL probe. *)
Inductive bundled (NewRequestWithContext : string -> string -> OutRequest + error)
    (DefaultClient : Client) : Check -> Prop :=
| bundled_http method url client :
    bundled NewRequestWithContext DefaultClient
      (CheckHTTPResponse NewRequestWithContext DefaultClient method url client)
| bundled_url url :
    bundled NewRequestWithContext DefaultClient
      (CheckURL NewRequestWithContext DefaultClient url)
| bundled_ping pinger :
    bundled NewRequestWithContext DefaultClient (CheckPing pinger).

(** The category of a failure of a bundled check. *)
Definition probe_failure (e : error) : Prop :=
  errors_Is e ErrURLCheckFailed = true \/ errors_Is e ErrPingCheckFailed = true.

(** A client whose call takes two ticks unless the context is done
    first, and then answers 503; a pinger whose ping fails at once. *)
Definition slow_client : Client :=
  mkClient (fun _ => AwaitFor 2 (fun r => Ret (inr (ctxError r)))
                       (Ret (inl (mkResponse 503)))).

Definition probing_timed : Timed.Handler :=
  Timed.mkHandler (Some (Callback 1)) Timed.DefaultReadynessCheckTimeout
    [CheckURL accept_all slow_client "http://localhost:1234/"; CheckPing failing_pinger]
    unlocked NewServeMux "".

(** The group of an evaluation of the registry [cs] after [n] steps. *)
Definition progress (sched : scheduler) (n : nat) (ctx : Context) (now : Z)
    (cs : list Check) : Group :=
  run sched n O (go_all (errgroup_WithContext ctx now) cs).

(** Two checks that fail with different errors, the second one tick
    later. *)
Definition first_error : error := errorString 5 "first".
Definition second_error : error := errorString 6 "second".

Definition twice_failing : Timed.Handler :=
  Timed.mkHandler None 0 [Ret (Some first_error); Sleep (Ret (Some second_error))]
    unlocked NewServeMux "".

(** What holds of the context of a group: it is the one the group was
    made with as long as no goroutine has failed, and it is done from
    the first failure on; its deadline never changes. *)
Definition canceled_by_failure (ctx0 : Context) (g : Group) : Prop :=
  (g_err g = None -> g_ctx g = ctx0)
  /\ (g_err g <> None -> done (g_ctx g) (g_now g) <> None)
  /\ deadline (g_ctx g) = deadline ctx0.

(** A check that, once its context is done, returns without letting
    time pass. *)
Fixpoint settled (t : task (option error)) : Prop :=
  match t with
  | Ret _ => True
  | Sleep _ => False
  | Await d _ => forall r, settled (d r)
  | Poll k => forall r, settled (k (Some r))
  end.

(** A check that watches its context: whenever it waits it waits on
    [ctx.Done()] too, and once the context is done it returns without
    waiting. *)
Fixpoint responsive (t : task (option error)) : Prop :=
  match t with
  | Ret _ => True
  | Sleep _ => False
  | Await d k => (forall r, settled (d r)) /\ responsive k
  | Poll k => responsive (k None) /\ forall r, settled (k (Some r))
  end.

(** The states of the goroutine of a responsive check. *)
Definition poised (ctx : Context) (now : Z) (r : goroutine) : Prop :=
  match r with
  | Running t => settled t /\ (done ctx now = None -> responsive t)
  | Finished _ => True
  end.

(** What holds of a group of responsive checks whose context has the
    deadline [D], started at [n0]. *)
Definition timely (D n0 : Z) (g : Group) : Prop :=
  deadline (g_ctx g) = Some D
  /\ n0 <= g_now g <= Z.max n0 D
  /\ Forall (poised (g_ctx g) (g_now g)) (g_routines g).

(** A check that returns an error within [m] ticks, whatever it sees of
    its context. *)
Fixpoint fails_by (m : nat) (t : task (option error)) {struct t} : Prop :=
  match t with
  | Ret (Some _) => True
  | Ret None => False
  | Sleep k =>
      match m with
      | S m' => fails_by m' k
      | O => False
      end
  | Await d k =>
      (forall r, fails_by m (d r))
      /\ match m with
         | S m' => fails_by m' k
         | O => False
         end
  | Poll k => forall x, fails_by m (k x)
  end.

(** The states of the goroutine of such a check, in an evaluation
    started at [n0]. *)
Definition impending (k : nat) (n0 now : Z) (r : goroutine) : Prop :=
  (exists m t, r = Running t /\ fails_by m t /\ now + Z.of_nat m <= n0 + Z.of_nat k)
  \/ (exists e, r = Finished (Some e)).

(** What holds of a group of responsive checks one of which fails
    within [k] ticks. *)
Definition failing_soon (k : nat) (n0 : Z) (cs : list Check) (g : Group) : Prop :=
  err_recorded g
  /\ (g_err g <> None -> done (g_ctx g) (g_now g) <> None)
  /\ n0 <= g_now g <= n0 + Z.of_nat k
  /\ Forall (poised (g_ctx g) (g_now g)) (g_routines g)
  /\ Forall2 (fun c r => fails_by k c -> impending k n0 (g_now g) r) cs (g_routines g).

(** A handler without a timeout whose first check fails after two ticks
    of waiting on its context, and whose second waits a hundred. *)
Definition impatient : Timed.Handler :=
  Timed.mkHandler None 0
    [AwaitFor 2 return_ctx_err (Ret (Some caboom)); AwaitFor 100 return_ctx_err (Ret None)]
    unlocked NewServeMux "".

(** The options the package provides, and the nil option. *)
Inductive builtin : option Timed.Option -> Prop :=
| builtin_nil : builtin None
| builtin_logger l : builtin (Some (Timed.WithErrorLogger l))
| builtin_timeout t : builtin (Some (Timed.WithReadynessTimeout t)).

(** A caller whose context has a deadline at instant 3 and who cancels
    at instant 7. *)
Definition hurried : Context := mkContext (Some 3) (Some 7).

(** A handler without a timeout, and the handler of
    [src/healthcheck.go] with the same checks and callback. *)
Definition untimed : Timed.Handler :=
  Timed.mkHandler (Some (Callback 1)) 0 [Ret None; Sleep (Ret (Some caboom))]
    unlocked NewServeMux "".

Definition untimed_plain : Plain.Handler :=
  Plain.mkHandler (Some (Callback 1)) [Ret None; Sleep (Ret (Some caboom))]
    unlocked NewServeMux "".

(** [w.Header().Get(key)], [None] for a key that is not set. *)
Fixpoint Header_Get (key : string) (hs : list (string * string)) : option string :=
  match hs with
  | [] => None
  | (k, v) :: hs' => if String.eqb k key then Some v else Header_Get key hs'
  end.

(** [AddCheck] for each check of a list, in order. *)
Fixpoint Timed_add_all (h : Timed.Handler) (cs : list Check) : option Timed.Handler :=
  match cs with
  | [] => Some h
  | c :: cs' =>
      match Timed.AddCheck h c with
      | Some h' => Timed_add_all h' cs'
      | None => None
      end
  end.

(** The fields of an object, each value marshalled, in the order of the
    bindings; [None] when a value cannot be marshalled. *)
Fixpoint marshal_fields (m : list (string * any)) : option (list (string * string)) :=
  match m with
  | [] => Some []
  | (k, x) :: m' =>
      match json_Marshal x, marshal_fields m' with
      | Some s, Some r => Some ((k, s) :: r)
      | _, _ => None
      end
  end.

(** Info data with a function among its values. *)
Definition unencodable_data : gomap := [("name", VString "svc"); ("hook", VFunc)].

(** Info data of a caller who sets a name and a version of his own. *)
Definition caller_data : gomap := [("name", VString "svc"); ("version", VString "mine")].

(** [EnableInfo] of the first revision in [src/example/main.go], whose
    [Handler] is the one of [src/healthcheck.go].  It has no nil check:
    a nil map ([None]) panics when it is assigned to, and is marshalled
    as [null]. *)
Module Early.

Definition EnableInfo (info : option BuildInfo) (h : Plain.Handler) (infoData : option gomap)
  : option Plain.Handler :=
  match
    match info, infoData with
    | Some bi, None => None
    | Some bi, Some m =>
        Some (VMap (map_set "build_settings" (VMap (settings_map (Settings bi)))
                      (map_set "version" (VString (Main_Version bi)) m)))
    | None, Some m => Some (VMap m)
    | None, None => Some VNil
    end
  with
  | None => None
  | Some data =>
      match json_Marshal data with
      | None => None
      | Some payload =>
          match HandleFunc (Plain.mux h) InfoPath handleInfo_ with
          | None => None
          | Some m =>
              Some (Plain.mkHandler (Plain.errorLogFunc h) (Plain.checks h) (Plain.lock h)
                      m payload)
          end
      end
  end.

End Early.

(** A failure that no call of [errors.Is] relates to the errors of the
    context package. *)
Definition hides_context_errors (e : error) : Prop :=
  errors_Is e DeadlineExceeded = false /\ errors_Is e Canceled = false.

(** A pinger that waits for the endpoint for five ticks and gives up
    with the error of the context when that one is done first. *)
Definition waiting_pinger : Pinger :=
  mkPinger (AwaitFor 5 return_ctx_err (Ret None)).

Definition pinging_timed : Timed.Handler :=
  Timed.mkHandler None 2 [CheckPing waiting_pinger] unlocked NewServeMux "".

(** A check that takes at least [m] ticks, whatever it sees of its
    context. *)
Fixpoint takes (m : nat) (t : task (option error)) {struct t} : Prop :=
  match t with
  | Ret _ => m = O
  | Sleep k =>
      match m with
      | O => True
      | S m' => takes m' k
      end
  | Await d k =>
      (forall r, takes m (d r))
      /\ match m with
         | O => True
         | S m' => takes m' k
         end
  | Poll k => forall x, takes m (k x)
  end.

(** The states of the goroutine of such a check, in an evaluation
    started at [n0]. *)
Definition busy (k : nat) (n0 now : Z) (r : goroutine) : Prop :=
  match r with
  | Running t => exists m, takes m t /\ n0 + Z.of_nat k <= now + Z.of_nat m
  | Finished _ => n0 + Z.of_nat k <= now
  end.

(** What holds of a group of responsive checks whose context was done
    when the evaluation started at [n0]. *)
Definition stalled (n0 : Z) (g : Group) : Prop :=
  done (g_ctx g) (g_now g) <> None
  /\ g_now g = n0
  /\ Forall (poised (g_ctx g) (g_now g)) (g_routines g).

(** A request whose context was canceled at instant 0. *)
Definition abandoned : Request := mkRequest MethodGet ReadyPath (mkContext None (Some 0)).

(** A handler whose check waits ten ticks or until its context is done. *)
Definition patient_plain : Plain.Handler :=
  Plain.mkHandler None [AwaitFor 10 return_ctx_err (Ret None)] unlocked base_mux "".

(* ================================================================== *)
(** * Proofs *)

(* ------------------------------------------------------------------ *)
(** ** Lists updated at an index *)

Lemma set_nth_length {A : Type} (i : nat) (x : A) (l : list A) :
  List.length (set_nth i x l) = List.length l.
Proof.
  revert i; induction l as [|y l IH]; intros [|i]; simpl; auto.
Qed.

Lemma nth_error_set_nth_same {A : Type} (i : nat) (x y : A) (l : list A) :
  nth_error l i = Some y -> nth_error (set_nth i x l) i = Some x.
Proof.
  revert i; induction l as [|z l IH]; intros [|i]; simpl; try discriminate; auto.
Qed.

Lemma nth_error_set_nth_other {A : Type} (i j : nat) (x : A) (l : list A) :
  i <> j -> nth_error (set_nth i x l) j = nth_error l j.
Proof.
  revert i j; induction l as [|z l IH]; intros [|i] [|j] H; simpl; auto.
  congruence.
Qed.

Lemma Forall2_set_nth {A B : Type} (R : A -> B -> Prop) (i : nat) (y y' : B)
    (xs : list A) (ys : list B) :
  Forall2 R xs ys ->
  nth_error ys i = Some y ->
  (forall x, R x y -> R x y') ->
  Forall2 R xs (set_nth i y' ys).
Proof.
  intros H; revert i; induction H as [|x z xs ys Hxz H IH]; intros [|i]; simpl;
    try discriminate.
  - intros [= ->] Hy. constructor; auto.
  - intros Hi Hy. constructor; eauto.
Qed.

Lemma Forall2_map_right {A B : Type} (R : A -> B -> Prop) (f : B -> B)
    (xs : list A) (ys : list B) :
  Forall2 R xs ys ->
  (forall x y, R x y -> R x (f y)) ->
  Forall2 R xs (map f ys).
Proof.
  induction 1; simpl; constructor; auto.
Qed.

Lemma Forall2_Exists_right {A B : Type} (P : A -> Prop) (Q : B -> Prop)
    (xs : list A) (ys : list B) :
  Forall2 (fun x y => P x -> Q y) xs ys -> Exists P xs -> exists y, In y ys /\ Q y.
Proof.
  induction 1 as [|x y xs ys Hxy H IH]; intros Hex.
  - inversion Hex.
  - inversion Hex as [? ? Hx | ? ? Hx]; subst.
    + exists y. split; [left; reflexivity | auto].
    + destruct (IH Hx) as (y' & Hin & Hq). exists y'. split; [right|]; auto.
Qed.

Lemma Forall_set_nth {A : Type} (P : A -> Prop) (i : nat) (y : A) (l : list A) :
  Forall P l -> P y -> Forall P (set_nth i y l).
Proof.
  intros H; revert i; induction H as [|x l Hx H IH]; intros [|i] Hy; simpl;
    constructor; auto.
Qed.

(* ------------------------------------------------------------------ *)
(** ** The steps of a group *)

Lemma enabled_from_In (ctx : Context) (now : Z) (rs : list goroutine) :
  forall k i, In i (enabled_from ctx now k rs) ->
    exists r, (k <= i)%nat /\ nth_error rs (i - k) = Some r /\ enabled ctx now r = true.
Proof.
  induction rs as [|r rs IH]; simpl; intros k i Hin; [contradiction|].
  destruct (enabled ctx now r) eqn:E.
  - destruct Hin as [<- | Hin].
    + exists r. rewrite Nat.sub_diag. auto.
    + destruct (IH _ _ Hin) as (r' & Hk & Hn & He).
      exists r'. split; [lia|]. split; auto.
      replace (i - k)%nat with (S (i - S k)) by lia. exact Hn.
  - destruct (IH _ _ Hin) as (r' & Hk & Hn & He).
    exists r'. split; [lia|]. split; auto.
    replace (i - k)%nat with (S (i - S k)) by lia. exact Hn.
Qed.

Lemma enabled_from_nil (ctx : Context) (now : Z) (rs : list goroutine) :
  forall k, enabled_from ctx now k rs = [] ->
    Forall (fun r => enabled ctx now r = false) rs.
Proof.
  induction rs as [|r rs IH]; simpl; intros k H; [constructor|].
  destruct (enabled ctx now r) eqn:E; [discriminate|].
  constructor; eauto.
Qed.

Lemma nth_mod_In (c : nat) (en : list nat) :
  en <> [] -> In (nth (Nat.modulo c (List.length en)) en O) en.
Proof.
  intros H. apply nth_In. apply Nat.mod_upper_bound.
  destruct en; [congruence | simpl; lia].
Qed.

(** A step is a tick when no goroutine can act, and otherwise an action
    of a goroutine that can. *)
Lemma step_cases (c : nat) (g : Group) :
  (Forall (fun r => enabled (g_ctx g) (g_now g) r = false) (g_routines g)
   /\ step c g = tick g)
  \/ (exists i r, nth_error (g_routines g) i = Some r
                  /\ enabled (g_ctx g) (g_now g) r = true
                  /\ step c g = act g i).
Proof.
  unfold step. destruct (enabled_indices g) as [|i0 en] eqn:E.
  - left. split; auto. eapply enabled_from_nil; exact E.
  - right.
    assert (Hin : In (nth (Nat.modulo c (List.length (i0 :: en))) (i0 :: en) O)
                     (enabled_indices g)).
    { rewrite E. apply nth_mod_In. discriminate. }
    destruct (enabled_from_In _ _ _ _ _ Hin) as (r & _ & Hn & He).
    rewrite Nat.sub_0_r in Hn. eauto.
Qed.

(** An action rewrites one goroutine; a first failure is recorded and
    cancels the context, nothing else changes. *)
Lemma act_spec (g : Group) (i : nat) (r : goroutine) :
  nth_error (g_routines g) i = Some r ->
  enabled (g_ctx g) (g_now g) r = true ->
  exists r', acts (g_ctx g) (g_now g) r r'
    /\ g_routines (act g i) = set_nth i r' (g_routines g)
    /\ g_now (act g i) = g_now g
    /\ ((exists err, r = Running (Ret (Some err)) /\ g_err g = None
                     /\ g_err (act g i) = Some err
                     /\ g_ctx (act g i) = cancel (g_ctx g) (g_now g))
        \/ ((forall err, r = Running (Ret (Some err)) -> g_err g <> None)
            /\ g_err (act g i) = g_err g /\ g_ctx (act g i) = g_ctx g)).
Proof.
  intros Hn He. unfold act. rewrite Hn.
  destruct r as [[e|k|d k|k]|e]; simpl in He; try discriminate.
  - exists (Finished e). split; [constructor|].
    destruct e as [err|]; [destruct (g_err g) eqn:Eg|]; simpl.
    + repeat split; auto. right. repeat split; auto. intros ? _. congruence.
    + repeat split; auto. left. exists err. auto.
    + repeat split; auto. right. repeat split; auto. intros ? [=].
  - destruct (done (g_ctx g) (g_now g)) as [rs|] eqn:Ed; [|discriminate].
    exists (Running (d rs)). split; [constructor; auto|]. simpl.
    repeat split; auto. right. repeat split; auto. intros ? [=].
  - exists (Running (k (done (g_ctx g) (g_now g)))). split; [constructor|]. simpl.
    repeat split; auto. right. repeat split; auto. intros ? [=].
Qed.

(* ------------------------------------------------------------------ *)
(** ** Every goroutine returns *)

Lemma size_pos {A : Type} (t : task A) : (1 <= size t)%nat.
Proof. destruct t; simpl; lia. Qed.

Lemma acts_weight (ctx : Context) (now : Z) (r r' : goroutine) :
  acts ctx now r r' -> (weight r' < weight r)%nat.
Proof.
  destruct 1 as [e|k|d k rs Hd]; simpl.
  - lia.
  - destruct (done ctx now) as [[|]|]; lia.
  - destruct rs; lia.
Qed.

Lemma sumw_set_nth (i : nat) (r r' : goroutine) (rs : list goroutine) :
  nth_error rs i = Some r ->
  (sumw (set_nth i r' rs) + weight r = sumw rs + weight r')%nat.
Proof.
  revert i; induction rs as [|x rs IH]; intros [|i]; simpl; try discriminate.
  - intros [= ->]. lia.
  - intros H. specialize (IH _ H). lia.
Qed.

Lemma advance_weight (ctx : Context) (now : Z) (r : goroutine) :
  enabled ctx now r = false ->
  (weight (advance r) <= weight r)%nat
  /\ (finished r = false -> (weight (advance r) < weight r)%nat).
Proof.
  destruct r as [[e|k|d k|k]|e]; simpl; intros H; try discriminate; split; intros; try lia;
    discriminate.
Qed.

Lemma tick_weight (ctx : Context) (now : Z) (rs : list goroutine) :
  Forall (fun r => enabled ctx now r = false) rs ->
  (sumw (map advance rs) <= sumw rs)%nat
  /\ (forallb finished rs = false -> (sumw (map advance rs) < sumw rs)%nat).
Proof.
  induction 1 as [|r rs Hr H [IH1 IH2]]; simpl.
  - split; [lia | discriminate].
  - destruct (@advance_weight _ _ _ Hr) as [A1 A2].
    split; [lia|]. intros Hf.
    destruct (finished r) eqn:Fr; simpl in Hf.
    + specialize (IH2 Hf). lia.
    + specialize (A2 eq_refl). lia.
Qed.

Lemma measure_sumw (g : Group) : measure g = sumw (g_routines g).
Proof. reflexivity. Qed.

Lemma step_measure (c : nat) (g : Group) :
  all_finished g = false -> (measure (step c g) < measure g)%nat.
Proof.
  intros Hf. rewrite !measure_sumw.
  destruct (step_cases c g) as [[Hen ->] | (i & r & Hn & He & ->)].
  - simpl. apply (@tick_weight _ _ _ Hen). exact Hf.
  - destruct (act_spec g i Hn He) as (r' & Ha & -> & _).
    pose proof (acts_weight Ha). pose proof (sumw_set_nth i r' _ Hn). lia.
Qed.

Lemma sumw_zero_finished (rs : list goroutine) :
  sumw rs = O -> forallb finished rs = true.
Proof.
  induction rs as [|r rs IH]; simpl; auto.
  destruct r as [t|e]; simpl.
  - pose proof (size_pos t). lia.
  - auto.
Qed.

(** With as many steps as its measure, a group runs until every
    goroutine has returned. *)
Lemma run_finishes (sched : scheduler) :
  forall fuel n g, (measure g <= fuel)%nat -> all_finished (run sched fuel n g) = true.
Proof.
  induction fuel as [|fuel IH]; intros n g H; simpl.
  - apply sumw_zero_finished. rewrite measure_sumw in H. lia.
  - destruct (all_finished g) eqn:F; auto.
    apply IH. pose proof (step_measure (sched n) g F). lia.
Qed.

(** A property that every step preserves holds when the group has run. *)
Lemma run_invariant (sched : scheduler) (I : Group -> Prop) :
  (forall c g, I g -> all_finished g = false -> I (step c g)) ->
  forall fuel n g, I g -> I (run sched fuel n g).
Proof.
  intros Hstep. induction fuel as [|fuel IH]; intros n g H; simpl; auto.
  destruct (all_finished g) eqn:F; auto.
Qed.

(* ------------------------------------------------------------------ *)
(** ** What the group records *)

Lemma acts_running (ctx : Context) (now : Z) (r r' : goroutine) :
  acts ctx now r r' -> finished r = false.
Proof. destruct 1; reflexivity. Qed.

Lemma acts_failed (ctx : Context) (now : Z) (r r' : goroutine) :
  acts ctx now r r' ->
  failed r' = true -> exists err, r = Running (Ret (Some err)) /\ r' = Finished (Some err).
Proof.
  destruct 1 as [[err|]|k|d k rs Hd]; simpl; try discriminate. eauto.
Qed.

Lemma In_set_nth_other {A : Type} (i : nat) (x y z : A) (l : list A) :
  nth_error l i = Some y -> z <> y -> In z l -> In z (set_nth i x l).
Proof.
  intros Hi Hne Hin. destruct (In_nth_error _ _ Hin) as [j Hj].
  assert (i <> j) by (intros ->; congruence).
  apply nth_error_In with j. rewrite nth_error_set_nth_other; auto.
Qed.

Lemma step_err_recorded (c : nat) (g : Group) :
  err_recorded g -> err_recorded (step c g).
Proof.
  intros [H1 H2].
  destruct (step_cases c g) as [[_ ->] | (i & r & Hn & He & ->)].
  - split; simpl.
    + intros E. specialize (H1 E). apply Forall_map.
      eapply Forall_impl; [|exact H1]. intros [[ | | | ]|[|]]; simpl; auto.
    + intros e E. specialize (H2 e E). apply (in_map advance) in H2. exact H2.
  - destruct (act_spec g i Hn He) as (r' & Ha & Hr & _ & Hcase).
    unfold err_recorded. rewrite Hr.
    destruct Hcase as [(err & -> & Eg & Eg' & _) | (Hno & Eg' & _)]; rewrite Eg'.
    + split; [discriminate|]. intros e [= <-].
      inversion Ha; subst. eapply nth_error_In, nth_error_set_nth_same; eauto.
    + split.
      * intros E. apply Forall_set_nth; auto.
        destruct (failed r') eqn:F; auto.
        destruct (acts_failed Ha F) as (err & -> & _). destruct (Hno err eq_refl E).
      * intros e E. eapply In_set_nth_other; eauto.
        pose proof (acts_running Ha) as Hr'. intros <-. discriminate.
Qed.

Lemma step_length (c : nat) (g : Group) :
  List.length (g_routines (step c g)) = List.length (g_routines g).
Proof.
  destruct (step_cases c g) as [[_ ->] | (i & r & Hn & He & ->)].
  - simpl. apply length_map.
  - destruct (act_spec g i Hn He) as (r' & _ & -> & _). apply set_nth_length.
Qed.

(** A relation between the checks and their goroutines that no action
    and no tick breaks holds at every step. *)
Lemma step_pointwise (R : Check -> goroutine -> Prop) :
  (forall x ctx now r r', R x r -> acts ctx now r r' -> R x r') ->
  (forall x r, R x r -> R x (advance r)) ->
  forall cs c g, Forall2 R cs (g_routines g) -> Forall2 R cs (g_routines (step c g)).
Proof.
  intros Hact Hadv cs c g H.
  destruct (step_cases c g) as [[_ ->] | (i & r & Hn & He & ->)].
  - simpl. apply Forall2_map_right; auto.
  - destruct (act_spec g i Hn He) as (r' & Ha & -> & _).
    eapply Forall2_set_nth; eauto.
Qed.

Lemma go_all_spec (cs : list Check) :
  forall g, go_all g cs
            = mkGroup (g_ctx g) (g_now g) (g_routines g ++ map Running cs)%list (g_err g).
Proof.
  unfold go_all. induction cs as [|c cs IH]; intros g; simpl.
  - rewrite app_nil_r. destruct g; reflexivity.
  - rewrite IH. unfold Go; simpl. rewrite <- app_assoc. reflexivity.
Qed.

Lemma started_spec (ctx : Context) (now : Z) (cs : list Check) :
  go_all (errgroup_WithContext ctx now) cs = mkGroup ctx now (map Running cs) None.
Proof. rewrite go_all_spec. reflexivity. Qed.

Lemma evaluate_awaited (sched : scheduler) (ctx : Context) (now : Z) (cs : list Check) :
  g_err (evaluate sched ctx now cs) = g_err (awaited sched ctx now cs)
  /\ g_routines (evaluate sched ctx now cs) = g_routines (awaited sched ctx now cs)
  /\ g_now (evaluate sched ctx now cs) = g_now (awaited sched ctx now cs).
Proof.
  unfold evaluate, awaited, Wait. rewrite started_spec. simpl. auto.
Qed.

Lemma awaited_finished (sched : scheduler) (ctx : Context) (now : Z) (cs : list Check) :
  all_finished (awaited sched ctx now cs) = true.
Proof. unfold awaited. apply run_finishes. lia. Qed.

Lemma awaited_invariant (sched : scheduler) (ctx : Context) (now : Z) (cs : list Check)
    (I : Group -> Prop) :
  (forall c g, I g -> all_finished g = false -> I (step c g)) ->
  I (mkGroup ctx now (map Running cs) None) ->
  I (awaited sched ctx now cs).
Proof. intros Hs H0. unfold awaited. apply run_invariant; auto. Qed.

Lemma awaited_err_recorded (sched : scheduler) (ctx : Context) (now : Z) (cs : list Check) :
  err_recorded (awaited sched ctx now cs).
Proof.
  apply awaited_invariant.
  - intros c g H _. apply step_err_recorded; auto.
  - split; simpl; [|discriminate]. intros _. apply Forall_map, Forall_forall. auto.
Qed.


Lemma awaited_pointwise (sched : scheduler) (ctx : Context) (now : Z) (cs : list Check)
    (R : Check -> goroutine -> Prop) :
  (forall x ctx now r r', R x r -> acts ctx now r r' -> R x r') ->
  (forall x r, R x r -> R x (advance r)) ->
  (forall x, R x (Running x)) ->
  Forall2 R cs (g_routines (awaited sched ctx now cs)).
Proof.
  intros Hact Hadv H0.
  apply (awaited_invariant sched ctx now cs (fun g => Forall2 R cs (g_routines g))).
  - intros c g H _. apply step_pointwise; auto.
  - simpl. induction cs; simpl; constructor; auto.
Qed.

(** The evaluation returns nil exactly when every check returned nil. *)
Lemma awaited_success (sched : scheduler) (ctx : Context) (now : Z) (cs : list Check) :
  g_err (awaited sched ctx now cs) = None
  <-> Forall (fun r => r = Finished None) (g_routines (awaited sched ctx now cs)).
Proof.
  pose proof (awaited_err_recorded sched ctx now cs) as [H1 H2].
  pose proof (awaited_finished sched ctx now cs) as Hf.
  unfold all_finished in Hf. rewrite forallb_forall in Hf.
  split.
  - intros E. specialize (H1 E). rewrite Forall_forall in *.
    intros r Hr. specialize (H1 r Hr). specialize (Hf r Hr).
    destruct r as [t|[e|]]; simpl in *; try discriminate; auto.
  - intros Hall. destruct (g_err (awaited sched ctx now cs)) as [e|] eqn:E; auto.
    rewrite Forall_forall in Hall. specialize (Hall _ (H2 e eq_refl)). discriminate.
Qed.

(** With no check, [Wait] returns at once. *)
Lemma awaited_nil (sched : scheduler) (ctx : Context) (now : Z) :
  awaited sched ctx now [] = mkGroup ctx now [] None.
Proof. reflexivity. Qed.

Lemma acts_fails (ctx : Context) (now : Z) (r r' : goroutine) :
  fails_or_failed r -> acts ctx now r r' -> fails_or_failed r'.
Proof.
  intros H Ha. destruct Ha as [[err|]|k|d k rs Hd]; simpl in *; auto.
  destruct H; auto.
Qed.

Lemma advance_fails (r : goroutine) :
  fails_or_failed r -> fails_or_failed (advance r).
Proof.
  destruct r as [[e|k|d k|k]|e]; simpl; auto. intros [H _]; auto.
Qed.

(** A failing check in the registry makes the evaluation fail. *)
Lemma awaited_failure (sched : scheduler) (ctx : Context) (now : Z) (cs : list Check) :
  Exists always_fails cs ->
  exists err, g_err (awaited sched ctx now cs) = Some err
              /\ In (Finished (Some err)) (g_routines (awaited sched ctx now cs)).
Proof.
  intros Hex.
  pose proof (awaited_err_recorded sched ctx now cs) as [H1 H2].
  pose proof (awaited_finished sched ctx now cs) as Hf.
  assert (HR : Forall2 (fun x r => always_fails x -> fails_or_failed r) cs
                 (g_routines (awaited sched ctx now cs))).
  { apply awaited_pointwise.
    - intros x c n r r' H Ha Hx. eapply acts_fails; eauto.
    - intros x r H Hx. apply advance_fails; auto.
    - intros x Hx. exact Hx. }
  destruct (g_err (awaited sched ctx now cs)) as [e|] eqn:E; [eauto|].
  exfalso. specialize (H1 eq_refl).
  unfold all_finished in Hf. rewrite forallb_forall in Hf. rewrite Forall_forall in H1.
  clear H2 E. induction HR as [|x r cs' rs' Hxr HR IH].
  - inversion Hex.
  - inversion Hex as [? ? Hx | ? ? Hx]; subst.
    + specialize (Hxr Hx). specialize (H1 r (or_introl eq_refl)).
      specialize (Hf r (or_introl eq_refl)).
      destruct r as [t|[e|]]; simpl in *; try discriminate; auto.
    + apply IH; auto.
      * intros y Hy. apply H1. right; auto.
      * intros y Hy. apply Hf. right; auto.
Qed.

(* ------------------------------------------------------------------ *)
(** ** The readiness evaluation of the two handlers *)

Lemma RLock_RUnlock (m : RWMutex) :
  writer m = false -> exists l, RLock m = Some l /\ RUnlock l = m.
Proof.
  destruct m as [n w]; simpl; intros ->. unfold RLock; simpl. eauto.
Qed.

(** [ExecuteReadyChecks] is one evaluation of the registry under the
    bounded context, followed by the callback on a failure; the handler
    is left as it was. *)
Lemma ExecuteReadyChecks_spec (sched : scheduler) (h : Timed.Handler) (now : Z)
    (ctx : Context) :
  writer (Timed.lock h) = false ->
  let G := evaluate sched (Timed.ready_context h now ctx) now (Timed.checks h) in
  Timed.ExecuteReadyChecks sched h now ctx
  = Some (h, Timed.mkExecuted (g_err G)
               (match g_err G, Timed.ErrorLogger h with
                | Some err, Some f => [Invoke f err]
                | _, _ => []
                end)
               (g_routines G) (g_now G)).
Proof.
  intros Hw G. unfold Timed.ExecuteReadyChecks.
  destruct (RLock_RUnlock _ Hw) as (l & -> & ->). cbv zeta.
  change (Wait sched (go_all (errgroup_WithContext (Timed.ready_context h now ctx) now)
                        (Timed.checks h))) with G.
  destruct (g_err G); destruct h; reflexivity.
Qed.

Lemma handleReady_spec (sched : scheduler) (h : Plain.Handler) (now : Z)
    (w : ResponseWriter) (r : Request) :
  writer (Plain.lock h) = false ->
  let G := evaluate sched (req_Context r) now (Plain.checks h) in
  Plain.handleReady sched h now w r
  = Some (h, mkServed
               (WriteHeader (match g_err G with
                             | Some _ => StatusServiceUnavailable
                             | None => StatusNoContent
                             end) w)
               (match g_err G, Plain.errorLogFunc h with
                | Some err, Some f => [Invoke f err]
                | _, _ => []
                end)
               (g_routines G) (g_now G)).
Proof.
  intros Hw G. unfold Plain.handleReady.
  destruct (RLock_RUnlock _ Hw) as (l & -> & ->). cbv zeta.
  change (Wait sched (go_all (errgroup_WithContext (req_Context r) now) (Plain.checks h)))
    with G.
  destruct (g_err G); destruct h; reflexivity.
Qed.

Lemma evaluate_finished (sched : scheduler) (ctx : Context) (now : Z) (cs : list Check) :
  Forall (fun r => finished r = true) (g_routines (evaluate sched ctx now cs)).
Proof.
  destruct (evaluate_awaited sched ctx now cs) as (_ & -> & _).
  pose proof (awaited_finished sched ctx now cs) as H.
  unfold all_finished in H. rewrite forallb_forall in H. apply Forall_forall; auto.
Qed.

Lemma evaluate_success (sched : scheduler) (ctx : Context) (now : Z) (cs : list Check) :
  g_err (evaluate sched ctx now cs) = None
  <-> Forall (fun r => r = Finished None) (g_routines (evaluate sched ctx now cs)).
Proof.
  destruct (evaluate_awaited sched ctx now cs) as (-> & -> & _). apply awaited_success.
Qed.


Lemma evaluate_failure (sched : scheduler) (ctx : Context) (now : Z) (cs : list Check) :
  Exists always_fails cs ->
  exists err, g_err (evaluate sched ctx now cs) = Some err
              /\ In (Finished (Some err)) (g_routines (evaluate sched ctx now cs)).
Proof.
  destruct (evaluate_awaited sched ctx now cs) as (-> & -> & _). apply awaited_failure.
Qed.

Lemma evaluate_err_returned (sched : scheduler) (ctx : Context) (now : Z) (cs : list Check)
    (err : error) :
  g_err (evaluate sched ctx now cs) = Some err ->
  In (Finished (Some err)) (g_routines (evaluate sched ctx now cs)).
Proof.
  destruct (evaluate_awaited sched ctx now cs) as (-> & -> & _).
  apply (awaited_err_recorded sched ctx now cs).
Qed.

(** Reads the fields of an outcome without unfolding the evaluation. *)
Ltac fields :=
  cbn [Timed.ex_err Timed.ex_trace Timed.ex_routines Timed.ex_now
       sv_writer sv_trace sv_routines sv_now].



(** C2: with a failing check in the registry the evaluation returns a
    failure, one that a check returned; a configured callback is
    invoked once, with this failure, and it is not invoked when the
    evaluation succeeds.  [handleReady] of [src/healthcheck.go] answers
    503 and calls its error log function in the same way. *)
Theorem ready_fails_and_reports_once :
  (forall (sched : scheduler) (h : Timed.Handler) (now : Z) (ctx : Context),
      writer (Timed.lock h) = false ->
      exists x,
        Timed.ExecuteReadyChecks sched h now ctx = Some (h, x)
        /\ (Exists always_fails (Timed.checks h) -> exists err, Timed.ex_err x = Some err)
        /\ (forall err, Timed.ex_err x = Some err ->
              In (Finished (Some err)) (Timed.ex_routines x)
              /\ Timed.ex_trace x = match Timed.ErrorLogger h with
                                    | Some f => [Invoke f err]
                                    | None => []
                                    end)
        /\ (Timed.ex_err x = None -> Timed.ex_trace x = []))
  /\
  (forall (sched : scheduler) (h : Plain.Handler) (now : Z) (w : ResponseWriter)
          (r : Request),
      writer (Plain.lock h) = false ->
      exists s,
        Plain.handleReady sched h now w r = Some (h, s)
        /\ (Exists always_fails (Plain.checks h) ->
            exists err,
              In (Finished (Some err)) (sv_routines s)
              /\ sv_writer s = WriteHeader StatusServiceUnavailable w
              /\ sv_trace s = match Plain.errorLogFunc h with
                              | Some f => [Invoke f err]
                              | None => []
                              end)
        /\ (Forall (fun r => r = Finished None) (sv_routines s) ->
            sv_writer s = WriteHeader StatusNoContent w /\ sv_trace s = [])).
Proof.
  split.
  - intros sched h now ctx Hw. eexists. split; [apply ExecuteReadyChecks_spec; exact Hw|].
    fields. split; [|split].
    + intros Hex. destruct (evaluate_failure sched (Timed.ready_context h now ctx) now Hex)
        as (err & E & _). eauto.
    + intros err E. split; [apply evaluate_err_returned; exact E|].
      rewrite E. destruct (Timed.ErrorLogger h); reflexivity.
    + intros E. rewrite E. reflexivity.
  - intros sched h now w r Hw. eexists. split; [apply handleReady_spec; exact Hw|].
    fields. split.
    + intros Hex. destruct (evaluate_failure sched (req_Context r) now Hex) as (err & E & Hin).
      exists err. rewrite E. repeat split; auto.
    + intros Hall. apply evaluate_success in Hall. rewrite Hall. split; reflexivity.
Qed.

(** The theorem at the registry of the failing test, with a callback. *)
Lemma ready_fails_and_reports_once_witness :
  (writer (Timed.lock failing_timed) = false
   /\ Exists always_fails (Timed.checks failing_timed)
   /\ exists x err,
       Timed.ExecuteReadyChecks (fun n => n) failing_timed 0 Background
       = Some (failing_timed, x)
       /\ Timed.ex_err x = Some err
       /\ Timed.ex_trace x = [Invoke (Callback 1) err])
  /\ (writer (Plain.lock failing_plain) = false
      /\ Exists always_fails (Plain.checks failing_plain)
      /\ exists s err,
          Plain.handleReady (fun n => n) failing_plain 0 NewRecorder (get ReadyPath)
          = Some (failing_plain, s)
          /\ StatusCode (sv_writer s) = StatusServiceUnavailable
          /\ sv_trace s = [Invoke (Callback 1) err]).
Proof.
  assert (Hex : Exists always_fails [Ret None; Ret (Some caboom)]).
  { right. left. exact I. }
  split; (split; [reflexivity|]); (split; [exact Hex|]).
  - destruct (proj1 ready_fails_and_reports_once (fun n => n) failing_timed 0
                Background eq_refl) as (x & Hx & Hfail & Hlog & _).
    destruct (Hfail Hex) as (err & He). destruct (Hlog err He) as (_ & Ht).
    exists x, err. auto.
  - destruct (proj2 ready_fails_and_reports_once (fun n => n) failing_plain 0
                NewRecorder (get ReadyPath) eq_refl) as (s & Hs & Hfail & _).
    destruct (Hfail Hex) as (err & _ & Hw & Ht).
    exists s, err. split; [exact Hs|]. split; [rewrite Hw; reflexivity | exact Ht].
Defined.


(* ------------------------------------------------------------------ *)
(** ** Evaluations that run into the deadline *)



Section Deadline.

Variable ctx0 : Context.
Variable D : Z.
Hypothesis ctx0_deadline : deadline ctx0 = Some D.
Hypothesis ctx0_uncanceled : canceledAt ctx0 = None.






End Deadline.


Lemma ready_context_deadline (h : Timed.Handler) (now : Z) (ctx : Context) :
  Timed.ReadynessTimeout h > 0 ->
  deadline (Timed.ready_context h now ctx)
  = Some (match deadline ctx with
          | Some d => Z.min d (now + Timed.ReadynessTimeout h)
          | None => now + Timed.ReadynessTimeout h
          end)
  /\ canceledAt (Timed.ready_context h now ctx) = canceledAt ctx.
Proof.
  intros Ht. unfold Timed.ready_context.
  destruct (Z.gtb_spec (Timed.ReadynessTimeout h) 0) as [_|]; [|lia].
  unfold WithTimeout, WithDeadline.
  destruct (deadline ctx) as [d|] eqn:Ed; simpl; auto.
  destruct (Z.ltb_spec d (now + Timed.ReadynessTimeout h)); simpl.
  - rewrite Ed. split; auto. f_equal. lia.
  - split; auto. f_equal. lia.
Qed.




(* ------------------------------------------------------------------ *)
(** ** The bundled probes *)

Lemma call_bind {A B : Type} (ctx : Context) (t : task A) (f : A -> task B) :
  forall now,
    call ctx now (bind t f) = call ctx (snd (call ctx now t)) (f (fst (call ctx now t))).
Proof.
  induction t as [a|k IH|d IHd k IHk|k IH]; intros now; simpl; auto.
  destruct (done ctx now); auto.
Qed.

Lemma error_eqb_refl (e : error) : error_eqb e e = true.
Proof.
  induction e; simpl; auto.
  - rewrite Nat.eqb_refl, String.eqb_refl. reflexivity.
  - rewrite String.eqb_refl. auto.
Qed.

Lemma errors_Is_refl (e : error) : errors_Is e e = true.
Proof.
  assert (H : errors_Is e e
              = error_eqb e e || match e with
                                 | wrapError _ inner => errors_Is inner e
                                 | _ => false
                                 end) by (destruct e; reflexivity).
  rewrite H, error_eqb_refl. reflexivity.
Qed.

Lemma errors_Is_wrap (msg : string) (target : error) :
  errors_Is (wrapError msg target) target = true.
Proof.
  change (error_eqb (wrapError msg target) target || errors_Is target target = true).
  rewrite errors_Is_refl. apply Bool.orb_true_r.
Qed.

(** C5: the check built by [CheckHTTPResponse] (and by [CheckURL], which
    is [CheckHTTPResponse] with GET and the default client) returns nil
    if and only if the request could be built, the call returned a
    response and its status is below 400.  In the three other cases it
    returns an error, and every error it returns wraps
    [ErrURLCheckFailed]. *)
Theorem url_check_passes_iff_status_below_400
    (NewRequestWithContext : string -> string -> OutRequest + error)
    (DefaultClient : Client) (method url : string) (client : option Client)
    (ctx : Context) (now : Z) :
  let c := match client with
           | Some c => c
           | None => DefaultClient
           end in
  let result :=
    fst (call ctx now (CheckHTTPResponse NewRequestWithContext DefaultClient method url client)) in
  (result = None
   <-> exists req res,
         NewRequestWithContext method url = inl req
         /\ fst (call ctx now (Do c req)) = inl res
         /\ res_StatusCode res < 400)
  /\ (forall e, result = Some e ->
        errors_Is e ErrURLCheckFailed = true /\ Unwrap e = Some ErrURLCheckFailed)
  /\ (forall err, NewRequestWithContext method url = inr err -> result <> None)
  /\ (forall req err,
        NewRequestWithContext method url = inl req ->
        fst (call ctx now (Do c req)) = inr err -> result <> None)
  /\ (forall req res,
        NewRequestWithContext method url = inl req ->
        fst (call ctx now (Do c req)) = inl res ->
        res_StatusCode res >= 400 -> result <> None)
  /\ CheckURL NewRequestWithContext DefaultClient url
     = CheckHTTPResponse NewRequestWithContext DefaultClient MethodGet url None.
Proof.
  intros c result.
  assert (Hres :
    result = match NewRequestWithContext method url with
             | inr err =>
                 Some (wrapError
                         (Error ErrURLCheckFailed ++ ": failed to create http request for "
                            ++ method ++ " " ++ url ++ ": " ++ Error err)
                         ErrURLCheckFailed)
             | inl req =>
                 match fst (call ctx now (Do c req)) with
                 | inr err =>
                     Some (wrapError
                             (Error ErrURLCheckFailed ++ ": failed to issue http request for "
                                ++ method ++ " " ++ url ++ ": " ++ Error err)
                             ErrURLCheckFailed)
                 | inl res =>
                     if res_StatusCode res >=? StatusBadRequest
                     then Some (wrapError
                                  (Error ErrURLCheckFailed ++ ": got failing status code for "
                                     ++ method ++ " " ++ url ++ ": "
                                     ++ Itoa (res_StatusCode res))
                                  ErrURLCheckFailed)
                     else None
                 end
             end).
  { unfold result, CheckHTTPResponse, CheckFunc_Check. fold c.
    destruct (NewRequestWithContext method url) as [req|err]; [|reflexivity].
    rewrite call_bind.
    destruct (fst (call ctx now (Do c req))) as [res|err]; [|reflexivity].
    destruct (res_StatusCode res >=? StatusBadRequest); reflexivity. }
  clearbody result. subst result. unfold StatusBadRequest.
  split; [|split; [|split; [|split; [|split]]]].
  - split.
    + destruct (NewRequestWithContext method url) as [req|err]; [|discriminate].
      destruct (fst (call ctx now (Do c req))) as [res|err] eqn:E; [|discriminate].
      destruct (Z.geb_spec (res_StatusCode res) 400); [discriminate|].
      intros _. exists req, res. auto.
    + intros (req & res & -> & -> & Hlt).
      destruct (Z.geb_spec (res_StatusCode res) 400); [lia | reflexivity].
  - intros e.
    destruct (NewRequestWithContext method url) as [req|err].
    + destruct (fst (call ctx now (Do c req))) as [res|err].
      * destruct (res_StatusCode res >=? 400); [|discriminate].
        intros [= <-]. split; [apply errors_Is_wrap | reflexivity].
      * intros [= <-]. split; [apply errors_Is_wrap | reflexivity].
    + intros [= <-]. split; [apply errors_Is_wrap | reflexivity].
  - intros err ->. discriminate.
  - intros req err -> ->. discriminate.
  - intros req res -> -> Hge.
    destruct (Z.geb_spec (res_StatusCode res) 400); [discriminate | lia].
  - reflexivity.
Qed.

(** C8, as the code has it: the check built by [CheckPing] fails if and
    only if [PingContext] returns an error, at the instant at which it
    does.  The error it returns wraps [ErrPingCheckFailed]; of the cause
    it carries the text, after the text of [ErrPingCheckFailed]. *)
Theorem ping_check_fails_iff_ping_fails (pinger : Pinger) (ctx : Context) (now : Z) :
  let result := call ctx now (CheckPing pinger) in
  let ping := call ctx now (PingContext pinger) in
  (fst result <> None <-> fst ping <> None)
  /\ snd result = snd ping
  /\ (forall cause, fst ping = Some cause ->
        exists e, fst result = Some e
                  /\ errors_Is e ErrPingCheckFailed = true
                  /\ Unwrap e = Some ErrPingCheckFailed
                  /\ Error e = "ping check failed: " ++ Error cause).
Proof.
  intros result ping. unfold result, ping, CheckPing, CheckFunc_Check.
  rewrite call_bind.
  destruct (call ctx now (PingContext pinger)) as [[cause|] t]; simpl.
  - split; [split; discriminate|]. split; [reflexivity|].
    intros ? [= <-]. eexists. split; [reflexivity|]. repeat split.
  - split; [split; intros H; exact H|]. split; [reflexivity|]. discriminate.
Qed.

(** C8 as stated fails: the error of a failed ping check does not wrap
    the cause.  Its unwrap chain is [ErrPingCheckFailed] alone. *)
Lemma ping_check_does_not_wrap_cause :
  fst (call Background 0 (PingContext failing_pinger)) = Some ping_cause
  /\ exists e,
      fst (call Background 0 (CheckPing failing_pinger)) = Some e
      /\ errors_Is e ping_cause = false
      /\ Unwrap e = Some ErrPingCheckFailed
      /\ Unwrap ErrPingCheckFailed = None.
Proof.
  split; [reflexivity|]. eexists. split; [reflexivity|]. repeat split.
Qed.

(** The theorem at the failing pinger of the test. *)
Lemma ping_check_fails_iff_ping_fails_witness :
  fst (call Background 0 (PingContext failing_pinger)) = Some ping_cause
  /\ exists e,
      fst (call Background 0 (CheckPing failing_pinger)) = Some e
      /\ Error e = "ping check failed: failed".
Proof.
  split; [reflexivity|].
  destruct (ping_check_fails_iff_ping_fails failing_pinger Background 0) as (_ & _ & H).
  destruct (H ping_cause eq_refl) as (e & He & _ & _ & Hm).
  exists e. split; [exact He | exact Hm].
Defined.

(** The theorem at a server that answers 204, and at one that answers
    503. *)
Lemma url_check_passes_iff_status_below_400_witness :
  fst (call Background 0 (CheckURL accept_all (answering 204) "http://localhost:1234/")) = None
  /\ exists e,
      fst (call Background 0 (CheckURL accept_all (answering 503) "http://localhost:1234/"))
      = Some e
      /\ errors_Is e ErrURLCheckFailed = true.
Proof.
  split.
  - apply (url_check_passes_iff_status_below_400 accept_all (answering 204)
             MethodGet "http://localhost:1234/" None Background 0).
    exists (mkOutRequest MethodGet "http://localhost:1234/"), (mkResponse 204).
    repeat split.
  - eexists. split; [reflexivity|].
    apply (url_check_passes_iff_status_below_400 accept_all (answering 503)
             MethodGet "http://localhost:1234/" None Background 0).
    reflexivity.
Defined.

(* ------------------------------------------------------------------ *)
(** ** The handler between two calls *)

Unset Implicit Arguments.

Lemma New_spec (f : option callback) :
  Plain.New f = Some (Plain.mkHandler f [] unlocked base_mux "").
Proof. reflexivity. Qed.

Lemma AddCheck_spec (h : Plain.Handler) (c : Check) :
  Plain.lock h = unlocked ->
  Plain.AddCheck h c
  = Some (Plain.mkHandler (Plain.errorLogFunc h) (Plain.checks h ++ [c])%list unlocked
            (Plain.mux h) (Plain.infoPayload h)).
Proof. intros Hl. unfold Plain.AddCheck. rewrite Hl. reflexivity. Qed.

Lemma ServeHTTP_handler (sched : scheduler) (h h' : Plain.Handler) (now : Z)
    (w : ResponseWriter) (r : Request) (s : served) :
  Plain.lock h = unlocked ->
  Plain.ServeHTTP sched h now w r = Some (h', s) -> h' = h.
Proof.
  intros Hl. unfold Plain.ServeHTTP.
  destruct (mux_find (Plain.mux h) (Method r) (Path r)) as [[| |]| |].
  - intros [= <- _]; reflexivity.
  - rewrite handleReady_spec by (rewrite Hl; reflexivity). intros [= <- _]; reflexivity.
  - intros [= <- _]; reflexivity.
  - intros [= <- _]; reflexivity.
  - intros [= <- _]; reflexivity.
Qed.

Lemma EnableInfo_spec (info : option BuildInfo) (h h' : Plain.Handler)
    (infoData : option gomap) :
  at_rest h ->
  Plain.EnableInfo info h infoData = Some h' ->
  Plain.mux h = base_mux
  /\ json_Marshal (VMap (info_data info infoData)) = Some (Plain.infoPayload h')
  /\ h' = Plain.mkHandler (Plain.errorLogFunc h) (Plain.checks h) unlocked info_mux
            (Plain.infoPayload h').
Proof.
  intros [Hl Hm]. unfold Plain.EnableInfo.
  destruct (json_Marshal (VMap (info_data info infoData))) as [payload|]; [|discriminate].
  destruct Hm as [Hm|Hm]; rewrite Hm; simpl; [|discriminate].
  intros [= <-]. simpl. rewrite Hl. auto.
Qed.

(** Every call leaves the handler at rest, keeps the registered checks
    and appends the ones it registers. *)
Lemma perform_spec (h h' : Plain.Handler) (op : operation) :
  at_rest h -> perform h op = Some h' ->
  at_rest h' /\ Plain.checks h' = (Plain.checks h ++ registers op)%list.
Proof.
  intros Hr. pose proof Hr as [Hl Hm]. destruct op as [c|c|info d|sched now w r]; simpl.
  - rewrite AddCheck_spec by auto. intros [= <-]. simpl. split; [split|]; auto.
  - unfold Plain.AddCheckFunc. rewrite AddCheck_spec by auto.
    intros [= <-]. simpl. split; [split|]; auto.
  - intros H. destruct (EnableInfo_spec _ _ _ _ Hr H) as (_ & _ & ->). simpl.
    rewrite app_nil_r. split; [split|]; auto.
  - destruct (Plain.ServeHTTP sched h now w r) as [[h1 s]|] eqn:E; [|discriminate].
    intros [= <-]. apply ServeHTTP_handler in E; auto. subst h1.
    rewrite app_nil_r. auto.
Qed.

Lemma perform_all_spec (ops : list operation) :
  forall h h', at_rest h -> perform_all h ops = Some h' ->
    at_rest h' /\ Plain.checks h' = (Plain.checks h ++ flat_map registers ops)%list.
Proof.
  induction ops as [|op ops IH]; simpl; intros h h' Hr.
  - intros [= <-]. rewrite app_nil_r. auto.
  - destruct (perform h op) as [h1|] eqn:E; [|discriminate].
    destruct (perform_spec _ _ _ Hr E) as [Hr1 Hc1]. intros H.
    destruct (IH _ _ Hr1 H) as [Hr' Hc']. split; auto.
    rewrite Hc', Hc1, <- app_assoc. reflexivity.
Qed.

Lemma after_spec (f : option callback) (ops : list operation) (h : Plain.Handler) :
  after f ops = Some h ->
  at_rest h /\ Plain.checks h = flat_map registers ops.
Proof.
  unfold after. rewrite New_spec. intros H.
  apply perform_all_spec in H; [exact H|]. split; simpl; auto.
Qed.

(** C7: the registry is empty when [New] returns; each registration
    appends its check at the end and keeps the checks before it in
    their order; no call removes a check: after any sequence of calls
    the registry is the old one followed by the checks registered, in
    the order of their registration. *)
Theorem registry_starts_empty_and_only_grows :
  (forall f, exists h, Plain.New f = Some h /\ Plain.checks h = [])
  /\ (forall h c, at_rest h ->
        exists h', Plain.AddCheck h c = Some h'
                   /\ Plain.checks h' = (Plain.checks h ++ [c])%list)
  /\ (forall h c, at_rest h ->
        exists h', Plain.AddCheckFunc h c = Some h'
                   /\ Plain.checks h' = (Plain.checks h ++ [CheckFunc_Check c])%list)
  /\ (forall h op h', at_rest h -> perform h op = Some h' ->
        Plain.checks h' = (Plain.checks h ++ registers op)%list
        /\ (List.length (Plain.checks h) <= List.length (Plain.checks h'))%nat)
  /\ (forall h ops h', at_rest h -> perform_all h ops = Some h' ->
        Plain.checks h' = (Plain.checks h ++ flat_map registers ops)%list)
  /\ (forall f ops h, after f ops = Some h -> Plain.checks h = flat_map registers ops).
Proof.
  split; [|split; [|split; [|split; [|split]]]].
  - intros f. eexists. split; [apply New_spec | reflexivity].
  - intros h c [Hl _]. eexists. split; [apply AddCheck_spec; exact Hl | reflexivity].
  - intros h c [Hl _]. eexists. split; [apply AddCheck_spec; exact Hl | reflexivity].
  - intros h op h' Hr H. destruct (perform_spec _ _ _ Hr H) as [_ Hc]. split; auto.
    rewrite Hc, length_app. lia.
  - intros h ops h' Hr H. apply (perform_all_spec _ _ _ Hr H).
  - intros f ops h H. apply (after_spec _ _ _ H).
Qed.

(** The theorem at a program that registers two checks between other
    calls. *)
Lemma registry_starts_empty_and_only_grows_witness :
  exists h, after None sample_calls = Some h
            /\ Plain.checks h = [Ret None; Sleep (Ret (Some caboom))].
Proof.
  assert (H : exists h, after None sample_calls = Some h) by (eexists; reflexivity).
  destruct H as [h H]. exists h. split; [exact H|].
  destruct registry_starts_empty_and_only_grows as (_ & _ & _ & _ & _ & Hall).
  apply (Hall None sample_calls h H).
Defined.

(* ------------------------------------------------------------------ *)
(** ** The routes *)

Lemma find_live (mux : ServeMux) (method : string) :
  mux = base_mux \/ mux = info_mux -> mux_find mux method LivePath = Matched handleLive_.
Proof. intros [-> | ->]; reflexivity. Qed.

Lemma find_ready (mux : ServeMux) (method : string) :
  mux = base_mux \/ mux = info_mux -> mux_find mux method ReadyPath = Matched handleReady_.
Proof. intros [-> | ->]; reflexivity. Qed.

Lemma find_info (method : string) :
  mux_find base_mux method InfoPath = NoMatch
  /\ mux_find info_mux method InfoPath = Matched handleInfo_.
Proof. split; reflexivity. Qed.

(** C9: on a handler made by [New], whatever was called on it since, a
    request to the liveness path is answered 204 at once: no goroutine
    is started, no callback is invoked and the handler is left as it
    was, whatever checks are registered. *)
Theorem liveness_answers_no_content_without_checks
    (f : option callback) (ops : list operation) (h : Plain.Handler)
    (sched : scheduler) (now : Z) (w : ResponseWriter) (r : Request) :
  after f ops = Some h ->
  Path r = LivePath ->
  Plain.checks h = flat_map registers ops
  /\ Plain.ServeHTTP sched h now w r
     = Some (h, mkServed (WriteHeader StatusNoContent w) [] [] now)
  /\ (Code w = None -> StatusCode (WriteHeader StatusNoContent w) = StatusNoContent).
Proof.
  intros Ha Hp. destruct (after_spec _ _ _ Ha) as [[Hl Hm] Hc].
  split; [exact Hc|]. split.
  - unfold Plain.ServeHTTP. rewrite Hp, (find_live _ _ Hm). reflexivity.
  - intros Hw. unfold StatusCode, WriteHeader. rewrite Hw. reflexivity.
Qed.

(** The theorem at a handler with a failing check registered. *)
Lemma liveness_answers_no_content_without_checks_witness :
  exists h,
    after None sample_calls = Some h
    /\ Plain.ServeHTTP (fun n => n) h 5 NewRecorder (get LivePath)
       = Some (h, mkServed (WriteHeader StatusNoContent NewRecorder) [] [] 5).
Proof.
  assert (H : exists h, after None sample_calls = Some h) by (eexists; reflexivity).
  destruct H as [h H]. exists h. split; [exact H|].
  apply (liveness_answers_no_content_without_checks None sample_calls h (fun n => n) 5
           NewRecorder (get LivePath) H eq_refl).
Defined.



(* ------------------------------------------------------------------ *)
(** ** The info endpoint *)

Lemma info_data_keys (bi : BuildInfo) (infoData : option gomap) :
  map_get "version" (info_data (Some bi) infoData) = Some (VString (Main_Version bi))
  /\ map_get "build_settings" (info_data (Some bi) infoData)
     = Some (VMap (settings_map (Settings bi))).
Proof. split; reflexivity. Qed.

Lemma insert_field_cons (f : string * string) (l : list (string * string)) :
  exists g l', insert_field f l = g :: l'.
Proof. destruct l as [|g l]; simpl; [|destruct (String.leb (fst f) (fst g))]; eauto. Qed.

Lemma concat_fields_quote (g : string * string) (l : list (string * string)) :
  exists rest, String.concat "," (map json_field (g :: l))
               = String (ascii_of_nat 34) rest.
Proof.
  simpl. destruct (map json_field l); unfold json_field, json_quote; simpl; eauto.
Qed.

(** Only the empty object is marshalled as ["{}"]. *)
Lemma marshal_empty_object (m : list (string * any)) :
  json_Marshal (VMap m) = Some "{}" -> m = [].
Proof.
  destruct m as [|[k v] m]; auto. simpl.
  destruct (json_Marshal v) as [s|]; [|discriminate].
  match goal with
  | |- context [option_map _ (match ?x with Some _ => _ | None => _ end)] =>
      destruct x as [r|]
  end; [|discriminate].
  simpl.
  destruct (insert_field_cons (k, s) (sort_fields r)) as (g & l' & E).
  change (sort_fields ((k, s) :: r)) with (insert_field (k, s) (sort_fields r)).
  rewrite E. destruct (concat_fields_quote g l') as (rest & ->).
  simpl. discriminate.
Qed.

Lemma perform_enabled (h h' : Plain.Handler) (op : operation) :
  at_rest h -> Plain.mux h = info_mux -> perform h op = Some h' ->
  Plain.mux h' = info_mux /\ Plain.infoPayload h' = Plain.infoPayload h.
Proof.
  intros [Hl _] Hm. destruct op as [c|c|info d|sched now w r]; simpl.
  - rewrite AddCheck_spec by auto. intros [= <-]. auto.
  - unfold Plain.AddCheckFunc. rewrite AddCheck_spec by auto. intros [= <-]. auto.
  - unfold Plain.EnableInfo. rewrite Hm.
    destruct (json_Marshal (VMap (info_data info d))); discriminate.
  - destruct (Plain.ServeHTTP sched h now w r) as [[h1 s]|] eqn:E; [|discriminate].
    intros [= <-]. apply ServeHTTP_handler in E; auto. subst h1. auto.
Qed.

Lemma perform_all_enabled (ops : list operation) :
  forall h h', at_rest h -> Plain.mux h = info_mux -> perform_all h ops = Some h' ->
    at_rest h' /\ Plain.mux h' = info_mux /\ Plain.infoPayload h' = Plain.infoPayload h.
Proof.
  induction ops as [|op ops IH]; simpl; intros h h' Hr Hm.
  - intros [= <-]. auto.
  - destruct (perform h op) as [h1|] eqn:E; [|discriminate].
    destruct (perform_spec _ _ _ Hr E) as [Hr1 _].
    destruct (perform_enabled _ _ _ Hr Hm E) as [Hm1 Hp1]. intros H.
    destruct (IH _ _ Hr1 Hm1 H) as (Hr' & Hm' & Hp'). rewrite Hp', Hp1. auto.
Qed.

(** C6, as the code has it.  A handler on which [EnableInfo] has not
    been called answers an info request 404.  [EnableInfo] marshals the
    caller's fields, to which it adds [version] and [build_settings]
    when the build information of the binary can be read; from then on,
    whatever is called on the handler, an info request is answered 200
    with these very bytes, and [EnableInfo] cannot be called again. *)
Theorem info_endpoint_serves_payload_of_enable_time
    (f : option callback) (ops : list operation) (h : Plain.Handler)
    (info : option BuildInfo) (infoData : option gomap) (h1 : Plain.Handler)
    (ops2 : list operation) (h2 : Plain.Handler)
    (sched : scheduler) (now : Z) (w : ResponseWriter) (method : string) (ctx : Context) :
  after f ops = Some h ->
  Plain.EnableInfo info h infoData = Some h1 ->
  perform_all h1 ops2 = Some h2 ->
  Code w = None ->
  (Plain.ServeHTTP sched h now w (mkRequest method InfoPath ctx)
   = Some (h, mkServed (NotFound w) [] [] now)
   /\ StatusCode (NotFound w) = StatusNotFound)
  /\ (exists s,
        Plain.ServeHTTP sched h2 now w (mkRequest method InfoPath ctx) = Some (h2, s)
        /\ StatusCode (sv_writer s) = StatusOK
        /\ Body (sv_writer s) = Body w ++ Plain.infoPayload h1)
  /\ json_Marshal (VMap (info_data info infoData)) = Some (Plain.infoPayload h1)
  /\ Plain.infoPayload h2 = Plain.infoPayload h1
  /\ (forall bi, info = Some bi ->
        map_get "version" (info_data info infoData) = Some (VString (Main_Version bi))
        /\ map_get "build_settings" (info_data info infoData)
           = Some (VMap (settings_map (Settings bi))))
  /\ (info = None ->
      info_data info infoData = match infoData with
                                | Some m => m
                                | None => []
                                end)
  /\ (forall info' infoData', Plain.EnableInfo info' h2 infoData' = None).
Proof.
  intros Ha He Hp Hw.
  destruct (after_spec _ _ _ Ha) as [Hr _].
  destruct (EnableInfo_spec _ _ _ _ Hr He) as (Hm & Hj & Hh1).
  assert (Hr1 : at_rest h1) by (rewrite Hh1; split; simpl; auto).
  assert (Hm1 : Plain.mux h1 = info_mux) by (rewrite Hh1; reflexivity).
  destruct (perform_all_enabled _ _ _ Hr1 Hm1 Hp) as (Hr2 & Hm2 & Hp2).
  split; [|split; [|split; [|split; [|split; [|split]]]]]; auto.
  - split.
    + unfold Plain.ServeHTTP. simpl. rewrite Hm. reflexivity.
    + unfold NotFound, http_Error, Write, WriteHeader, Header_Set, StatusCode. simpl.
      rewrite Hw. reflexivity.
  - unfold Plain.ServeHTTP. simpl. rewrite Hm2. cbn -[String.length Itoa].
    eexists. split; [reflexivity|]. rewrite Hp2.
    unfold Write, WriteHeader, Header_Set, StatusCode. simpl. rewrite Hw. simpl. auto.
  - intros bi ->. apply info_data_keys.
  - intros ->. reflexivity.
  - intros info' d'. unfold Plain.EnableInfo. rewrite Hm2.
    destruct (json_Marshal (VMap (info_data info' d'))); reflexivity.
Qed.

(** C6 as stated fails: when the build information cannot be read
    ([debug.ReadBuildInfo] returns false), the body has neither key. *)
Lemma info_body_without_build_info :
  exists h h1 s,
    after None [] = Some h
    /\ Plain.EnableInfo None h None = Some h1
    /\ Plain.ServeHTTP (fun n => n) h1 0 NewRecorder (get InfoPath) = Some (h1, s)
    /\ StatusCode (sv_writer s) = StatusOK
    /\ Body (sv_writer s) = "{}"
    /\ (forall m, json_Marshal (VMap m) = Some (Body (sv_writer s)) ->
          map_get "version" m = None /\ map_get "build_settings" m = None).
Proof.
  do 3 eexists. split; [reflexivity|]. split; [reflexivity|]. split; [reflexivity|].
  split; [reflexivity|]. split; [reflexivity|].
  intros m H. apply marshal_empty_object in H. subst m. split; reflexivity.
Qed.

(** The theorem at the handler of the info test, with a check
    registered before and after [EnableInfo]. *)
Lemma info_endpoint_serves_payload_of_enable_time_witness :
  exists h h1 h2 s,
    after None [OpAddCheck (Ret None)] = Some h
    /\ Plain.EnableInfo (Some (mkBuildInfo "" [])) h None = Some h1
    /\ perform_all h1 [OpAddCheck (Ret None)] = Some h2
    /\ Plain.ServeHTTP (fun n => n) h2 0 NewRecorder (get InfoPath) = Some (h2, s)
    /\ StatusCode (sv_writer s) = StatusOK
    /\ Body (sv_writer s) = Plain.infoPayload h1.
Proof.
  assert (Ha : exists h, after None [OpAddCheck (Ret None)] = Some h)
    by (eexists; reflexivity).
  destruct Ha as [h Ha].
  assert (He : exists h1, Plain.EnableInfo (Some (mkBuildInfo "" [])) h None = Some h1).
  { injection Ha as <-. eexists; reflexivity. }
  destruct He as [h1 He].
  assert (Hp : exists h2, perform_all h1 [OpAddCheck (Ret None)] = Some h2).
  { injection Ha as <-. injection He as <-. eexists; reflexivity. }
  destruct Hp as [h2 Hp].
  destruct (info_endpoint_serves_payload_of_enable_time None _ h _ None h1 _ h2
              (fun n => n) 0 NewRecorder MethodGet Background Ha He Hp eq_refl)
    as (_ & (s & Hs & Hc & Hb) & _).
  exists h, h1, h2, s. auto 10.
Defined.

(* ------------------------------------------------------------------ *)
(** ** Registrations during evaluations *)

Lemma sys_steps_trans (s1 s2 s3 : system) :
  sys_steps s1 s2 -> sys_steps s2 s3 -> sys_steps s1 s3.
Proof.
  induction 1 as [|a b c Hab Hbc IH]; auto. intros H. eapply sys_more; eauto.
Qed.

Lemma go_all_length (ctx : Context) (now : Z) (cs : list Check) :
  List.length (g_routines (go_all (errgroup_WithContext ctx now) cs)) = List.length cs.
Proof. rewrite started_spec. simpl. apply length_map. Qed.

Lemma sys_step_inv (s s' : system) : sys_inv s -> sys_step s s' -> sys_inv s'.
Proof.
  intros (Hw & Hn & Hall) Hs. destruct Hs as [h fls l r now Hl | h fls i fl c Hi Hf
                                             | h fls1 fl fls2 Hf | h fls c h' Ha];
    simpl in *.
  - unfold RLock in Hl. rewrite Hw in Hl. injection Hl as <-.
    unfold sys_inv; simpl. split; auto. split.
    + rewrite length_app, Hn. simpl. lia.
    + apply Forall_app. split; auto. constructor; [|constructor]. simpl.
      split; auto. apply go_all_length.
  - unfold sys_inv; simpl. split; auto. split.
    + rewrite set_nth_length. auto.
    + assert (Hfl : fl_snapshot fl = Plain.checks h
                    /\ List.length (g_routines (fl_group fl)) = List.length (fl_snapshot fl)).
      { rewrite Forall_forall in Hall. apply Hall. eapply nth_error_In; eauto. }
      apply Forall_set_nth; auto. simpl. rewrite step_length. auto.
  - unfold sys_inv; simpl. split; auto. split.
    + rewrite length_app in *. simpl in Hn. rewrite Hn. simpl. lia.
    + apply Forall_app in Hall. destruct Hall as [H1 H2]. inversion H2; subst.
      apply Forall_app. split; auto.
  - unfold Plain.AddCheck, Lock in Ha. rewrite Hw in Ha.
    destruct (readers (Plain.lock h)) eqn:Er; [|discriminate].
    injection Ha as <-. destruct fls; [|discriminate].
    unfold sys_inv; simpl. auto.
Qed.

Lemma sys_steps_inv (s s' : system) : sys_inv s -> sys_steps s s' -> sys_inv s'.
Proof.
  intros H Hs. induction Hs as [|a b c Hab Hbc IH]; auto.
  apply IH. eapply sys_step_inv; eauto.
Qed.

(** An evaluation in flight can run until its goroutines have returned. *)
Lemma flight_runs (sched : scheduler) (h : Plain.Handler) (snap : list Check)
    (fls : list flight) :
  forall fuel n g,
    sys_steps (mkSystem h (mkFlight snap g :: fls))
      (mkSystem h (mkFlight snap (run sched fuel n g) :: fls)).
Proof.
  induction fuel as [|fuel IH]; intros n g; simpl.
  - apply sys_stay.
  - destruct (all_finished g) eqn:F; [apply sys_stay|].
    eapply sys_more; [|apply IH].
    apply (@sys_run h (mkFlight snap g :: fls) O (mkFlight snap g) (sched n)); auto.
Qed.

(** Every evaluation in flight returns. *)
Lemma flights_return (fls : list flight) :
  forall h, exists h', sys_steps (mkSystem h fls) (mkSystem h' []).
Proof.
  induction fls as [|[snap g] fls IH]; intros h.
  - exists h. apply sys_stay.
  - destruct (IH (with_lock h (RUnlock (Plain.lock h)))) as [h' Hs].
    exists h'.
    eapply sys_steps_trans; [apply (flight_runs (fun _ => O) h snap fls (measure g) O g)|].
    eapply sys_more; [|exact Hs].
    apply (@sys_end h [] (mkFlight snap (run (fun _ => O) (measure g) O g)) fls).
    simpl. apply run_finishes. lia.
Qed.

(** C4, as the code has it: an evaluation takes the read lock at its
    start and holds it until it returns.  At every moment the lock is
    held once per evaluation in flight, each of them runs the checks of
    the registry as it was at its start, which is the registry as it
    still is; while one is in flight [AddCheck] blocks; when none is, it
    appends its check; and every evaluation in flight returns. *)
Theorem registration_waits_for_evaluations (h0 : Plain.Handler) (s : system) :
  Plain.lock h0 = unlocked ->
  sys_steps (mkSystem h0 []) s ->
  readers (Plain.lock (sys_handler s)) = List.length (sys_flights s)
  /\ (forall fl, In fl (sys_flights s) ->
        fl_snapshot fl = Plain.checks (sys_handler s)
        /\ List.length (g_routines (fl_group fl)) = List.length (fl_snapshot fl))
  /\ (sys_flights s <> [] -> forall c, Plain.AddCheck (sys_handler s) c = None)
  /\ (sys_flights s = [] ->
      forall c, exists h', Plain.AddCheck (sys_handler s) c = Some h'
                           /\ Plain.checks h' = (Plain.checks (sys_handler s) ++ [c])%list)
  /\ (exists h', sys_steps s (mkSystem h' [])).
Proof.
  intros Hl Hs.
  assert (H0 : sys_inv (mkSystem h0 [])).
  { unfold sys_inv; simpl. rewrite Hl. simpl. auto. }
  destruct (sys_steps_inv _ _ H0 Hs) as (Hw & Hn & Hall).
  split; [exact Hn|]. split; [|split; [|split]].
  - intros fl Hin. rewrite Forall_forall in Hall. auto.
  - intros Hne c. unfold Plain.AddCheck, Lock. rewrite Hw.
    destruct (sys_flights s); [congruence|]. simpl in Hn. rewrite Hn. reflexivity.
  - intros He c. unfold Plain.AddCheck, Lock. rewrite Hw, Hn, He. simpl.
    eexists. split; reflexivity.
  - destruct s as [h fls]. apply flights_return.
Qed.

(** C4 as stated fails: the read lock is held while the checks run.
    After [handleReady] has started the goroutines of a registry of two
    checks, one of which still sleeps, the lock has one reader and
    [AddCheck] blocks. *)
Lemma evaluation_holds_read_lock :
  exists h fl,
    sys_steps (mkSystem passing_plain []) (mkSystem h [fl])
    /\ all_finished (fl_group fl) = false
    /\ readers (Plain.lock h) = 1%nat
    /\ Plain.AddCheck h (Ret None) = None.
Proof.
  eexists. eexists. split.
  - eapply sys_more; [|apply sys_stay].
    apply (@sys_begin passing_plain [] (mkRWMutex 1 false) (get ReadyPath) 0). reflexivity.
  - repeat split.
Qed.

(** The theorem at an evaluation that has just started. *)
Lemma registration_waits_for_evaluations_witness :
  Plain.lock passing_plain = unlocked
  /\ exists h fl,
      sys_steps (mkSystem passing_plain []) (mkSystem h [fl])
      /\ fl_snapshot fl = Plain.checks h
      /\ Plain.AddCheck h (Ret None) = None.
Proof.
  split; [reflexivity|].
  assert (Hs : sys_steps (mkSystem passing_plain [])
                 (mkSystem (with_lock passing_plain (mkRWMutex 1 false))
                    [mkFlight (Plain.checks passing_plain)
                       (go_all (errgroup_WithContext (req_Context (get ReadyPath)) 0)
                          (Plain.checks passing_plain))])).
  { eapply sys_more; [|apply sys_stay].
    apply (@sys_begin passing_plain [] (mkRWMutex 1 false) (get ReadyPath) 0). reflexivity. }
  destruct (registration_waits_for_evaluations passing_plain _ eq_refl Hs)
    as (_ & Hsnap & Hblock & _).
  eexists. eexists. split; [exact Hs|]. split.
  - apply Hsnap. left. reflexivity.
  - apply Hblock. discriminate.
Defined.

(* ================================================================== *)
(** * Further properties of the code *)

(* ------------------------------------------------------------------ *)
(** ** Where the error of an evaluation comes from *)

Lemma acts_returns_within (P : error -> Prop) (ctx : Context) (now : Z)
    (r r' : goroutine) :
  returns_within P r -> acts ctx now r r' -> returns_within P r'.
Proof.
  intros H Ha. destruct Ha as [[e|]|k|d k rs Hd]; simpl in *; auto.
  destruct H; auto.
Qed.

Lemma advance_returns_within (P : error -> Prop) (r : goroutine) :
  returns_within P r -> returns_within P (advance r).
Proof.
  destruct r as [[e|k|d k|k]|e]; simpl; auto. intros [_ H]; auto.
Qed.

(** The error of an evaluation has every property that all the errors
    its checks can return have. *)
Lemma evaluate_may_return (P : error -> Prop) (sched : scheduler) (ctx : Context)
    (now : Z) (cs : list Check) (err : error) :
  Forall (may_return P) cs ->
  g_err (evaluate sched ctx now cs) = Some err -> P err.
Proof.
  intros Hall He. apply evaluate_err_returned in He.
  destruct (evaluate_awaited sched ctx now cs) as (_ & Hr & _). rewrite Hr in He.
  assert (HR : Forall2 (fun x r => may_return P x -> returns_within P r) cs
                 (g_routines (awaited sched ctx now cs))).
  { apply awaited_pointwise.
    - intros x c n r r' H Ha Hx. eapply acts_returns_within; eauto.
    - intros x r H Hx. apply advance_returns_within; auto.
    - intros x Hx. exact Hx. }
  clear Hr. induction HR as [|x r xs rs Hxr HR IH]; [contradiction|].
  inversion Hall; subst. destruct He as [-> | Hin]; auto.
  apply (Hxr H1).
Qed.

Lemma may_return_bind {A : Type} (P : error -> Prop) (t : task A)
    (f : A -> task (option error)) :
  (forall a, may_return P (f a)) -> may_return P (bind t f).
Proof.
  intros Hf. induction t as [a|k IH|d IHd k IHk|k IH]; simpl; auto.
Qed.

Lemma bundled_may_return (NR : string -> string -> OutRequest + error) (DC : Client)
    (c : Check) :
  bundled NR DC c -> may_return probe_failure c.
Proof.
  assert (Hhttp : forall method url client,
             may_return probe_failure (CheckHTTPResponse NR DC method url client)).
  { intros method url client. unfold CheckHTTPResponse, CheckFunc_Check.
    destruct (NR method url) as [req|err].
    - apply may_return_bind. intros [res|err]; simpl.
      + destruct (res_StatusCode res >=? StatusBadRequest); simpl; auto.
        left. apply errors_Is_wrap.
      + left. apply errors_Is_wrap.
    - simpl. left. apply errors_Is_wrap. }
  intros [method url client | url | pinger].
  - apply Hhttp.
  - apply Hhttp.
  - unfold CheckPing, CheckFunc_Check. apply may_return_bind.
    intros [e|]; simpl; auto. right. apply errors_Is_wrap.
Qed.

(** X1: when only bundled probes are registered, every error that
    [ExecuteReadyChecks] returns, and hands to the error logger, wraps
    [ErrURLCheckFailed] or [ErrPingCheckFailed], whatever the clients,
    the pingers, the context and the scheduler do. *)
Theorem bundled_probes_fail_in_their_category
    (NR : string -> string -> OutRequest + error) (DC : Client)
    (sched : scheduler) (h : Timed.Handler) (now : Z) (ctx : Context) :
  writer (Timed.lock h) = false ->
  Forall (bundled NR DC) (Timed.checks h) ->
  exists x,
    Timed.ExecuteReadyChecks sched h now ctx = Some (h, x)
    /\ (forall err, Timed.ex_err x = Some err -> probe_failure err)
    /\ (forall f err, In (Invoke f err) (Timed.ex_trace x) -> probe_failure err).
Proof.
  intros Hw Hb. eexists. split; [apply ExecuteReadyChecks_spec; exact Hw|]. fields.
  assert (Hall : Forall (may_return probe_failure) (Timed.checks h)).
  { eapply Forall_impl; [|exact Hb]. intros c. apply bundled_may_return. }
  split.
  - intros err He. eapply evaluate_may_return; eauto.
  - intros f err.
    destruct (g_err (evaluate sched (Timed.ready_context h now ctx) now (Timed.checks h)))
      as [e|] eqn:E; [|intros []].
    destruct (Timed.ErrorLogger h); [|intros []].
    intros [[= _ <-] | []]. eapply evaluate_may_return; eauto.
Qed.

(** The theorem at a URL check whose server is slow and a ping check
    that fails at once. *)
Lemma bundled_probes_fail_in_their_category_witness :
  writer (Timed.lock probing_timed) = false
  /\ Forall (bundled accept_all slow_client) (Timed.checks probing_timed)
  /\ exists x err,
      Timed.ExecuteReadyChecks (fun n => n) probing_timed 0 Background
      = Some (probing_timed, x)
      /\ Timed.ex_err x = Some err
      /\ probe_failure err.
Proof.
  assert (Hb : Forall (bundled accept_all slow_client) (Timed.checks probing_timed)).
  { repeat constructor. }
  split; [reflexivity|]. split; [exact Hb|].
  destruct (bundled_probes_fail_in_their_category accept_all slow_client (fun n => n)
              probing_timed 0 Background eq_refl Hb) as (x & Hx & Herr & _).
  assert (He : exists err, Timed.ex_err x = Some err).
  { injection Hx as <-. eexists. reflexivity. }
  destruct He as [err He]. exists x, err. auto.
Defined.

(* ------------------------------------------------------------------ *)
(** ** The first failure *)

Lemma run_finished (sched : scheduler) (fuel n : nat) (g : Group) :
  all_finished g = true -> run sched fuel n g = g.
Proof. intros H. destruct fuel; simpl; [|rewrite H]; reflexivity. Qed.

Lemma run_add (sched : scheduler) (a b : nat) :
  forall n g, run sched (a + b) n g = run sched b (n + a) (run sched a n g).
Proof.
  induction a as [|a IH]; intros n g; simpl.
  - rewrite Nat.add_0_r. reflexivity.
  - destruct (all_finished g) eqn:F.
    + rewrite run_finished; auto.
    + rewrite IH. f_equal. lia.
Qed.

Lemma run_beyond (sched : scheduler) (a n : nat) (g : Group) :
  (measure g <= a)%nat -> run sched a n g = run sched (measure g) n g.
Proof.
  intros H. replace a with (measure g + (a - measure g))%nat by lia.
  rewrite run_add. apply run_finished. apply run_finishes. lia.
Qed.

(** The state at the return of [Wait] is reached from every state on
    the way. *)
Lemma run_to_the_end (sched : scheduler) (a n : nat) (g : Group) :
  exists b m, run sched (measure g) n g = run sched b m (run sched a n g).
Proof.
  destruct (Nat.le_gt_cases a (measure g)) as [H|H].
  - exists (measure g - a)%nat, (n + a)%nat. rewrite <- run_add. f_equal. lia.
  - exists O, O. simpl. symmetry. apply run_beyond. lia.
Qed.

Lemma step_err_kept (c : nat) (g : Group) (e : error) :
  g_err g = Some e -> g_err (step c g) = Some e.
Proof.
  intros He. destruct (step_cases c g) as [[_ ->] | (i & r & Hn & Hen & ->)]; auto.
  destruct (act_spec g i Hn Hen) as (_ & _ & _ & _ & [(err & _ & Hnone & _) | (_ & -> & _)]);
    congruence.
Qed.

Lemma run_err_kept (sched : scheduler) (e : error) :
  forall fuel n g, g_err g = Some e -> g_err (run sched fuel n g) = Some e.
Proof.
  intros fuel n g. apply (run_invariant sched (fun g => g_err g = Some e)).
  intros c g' H _. apply step_err_kept; auto.
Qed.

Lemma evaluate_progress (sched : scheduler) (ctx : Context) (now : Z) (cs : list Check)
    (n : nat) :
  exists b m,
    g_err (evaluate sched ctx now cs) = g_err (run sched b m (progress sched n ctx now cs))
    /\ g_now (evaluate sched ctx now cs) = g_now (run sched b m (progress sched n ctx now cs)).
Proof.
  destruct (run_to_the_end sched n O (go_all (errgroup_WithContext ctx now) cs))
    as (b & m & H).
  exists b, m. unfold evaluate, Wait, progress. simpl. rewrite H. auto.
Qed.

(** X2: the error [ExecuteReadyChecks] returns is the first one a check
    returned: once the group has recorded an error, at whatever step of
    the evaluation, no later failure replaces it. *)
Theorem first_failure_is_returned
    (sched : scheduler) (h : Timed.Handler) (now : Z) (ctx : Context)
    (n : nat) (err : error) :
  writer (Timed.lock h) = false ->
  g_err (progress sched n (Timed.ready_context h now ctx) now (Timed.checks h)) = Some err ->
  exists x,
    Timed.ExecuteReadyChecks sched h now ctx = Some (h, x)
    /\ Timed.ex_err x = Some err.
Proof.
  intros Hw He. eexists. split; [apply ExecuteReadyChecks_spec; exact Hw|]. fields.
  destruct (evaluate_progress sched (Timed.ready_context h now ctx) now (Timed.checks h) n)
    as (b & m & -> & _).
  apply run_err_kept. exact He.
Qed.

(** The theorem at two checks that fail one tick apart: the error of
    the first is recorded at the first step and returned. *)
Lemma first_failure_is_returned_witness :
  writer (Timed.lock twice_failing) = false
  /\ g_err (progress (fun n => n) 1 (Timed.ready_context twice_failing 0 Background) 0
              (Timed.checks twice_failing)) = Some first_error
  /\ exists x,
      Timed.ExecuteReadyChecks (fun n => n) twice_failing 0 Background
      = Some (twice_failing, x)
      /\ Timed.ex_err x = Some first_error
      /\ Timed.ex_routines x = [Finished (Some first_error); Finished (Some second_error)].
Proof.
  split; [reflexivity|]. split; [reflexivity|].
  destruct (first_failure_is_returned (fun n => n) twice_failing 0 Background 1
              first_error eq_refl eq_refl) as (x & Hx & He).
  exists x. split; [exact Hx|]. split; [exact He|].
  injection Hx as <-. reflexivity.
Defined.

(* ------------------------------------------------------------------ *)
(** ** The context the checks see *)

(** A context that is done stays done, for the same reason. *)
Lemma done_later (ctx : Context) (now : Z) (r : reason) :
  done ctx now = Some r -> done ctx (now + 1) = Some r.
Proof.
  destruct ctx as [[d|] [c|]]; unfold done, reached, earlier; simpl;
    repeat match goal with
           | |- context [?a <=? ?b] => destruct (Z.leb_spec a b)
           | |- context [?a <? ?b] => destruct (Z.ltb_spec a b)
           end; simpl; try congruence; try lia.
Qed.

(** Canceling makes a context done, and leaves its deadline. *)
Lemma done_cancel (ctx : Context) (now : Z) :
  done (cancel ctx now) now <> None /\ deadline (cancel ctx now) = deadline ctx.
Proof.
  unfold cancel. destruct (done ctx now) as [r|] eqn:E.
  - rewrite E. split; [discriminate | reflexivity].
  - split; [|reflexivity]. revert E.
    destruct ctx as [[d|] [c|]]; unfold done, reached, earlier; simpl;
      repeat match goal with
             | |- context [?a <=? ?b] => destruct (Z.leb_spec a b)
             | |- context [?a <? ?b] => destruct (Z.ltb_spec a b)
             end; simpl; try congruence; try lia.
Qed.

Lemma step_canceled_by_failure (ctx0 : Context) (c : nat) (g : Group) :
  canceled_by_failure ctx0 g -> canceled_by_failure ctx0 (step c g).
Proof.
  intros (H1 & H2 & H3).
  destruct (step_cases c g) as [[_ ->] | (i & r & Hn & Hen & ->)].
  - unfold canceled_by_failure; simpl. split; auto. split; auto.
    intros He. specialize (H2 He).
    destruct (done (g_ctx g) (g_now g)) as [rs|] eqn:E; [|congruence].
    rewrite (done_later _ _ _ E). discriminate.
  - destruct (act_spec g i Hn Hen) as (_ & _ & _ & Hnow & Hcase).
    unfold canceled_by_failure. rewrite Hnow.
    destruct Hcase as [(err & _ & _ & -> & ->) | (_ & -> & ->)]; auto.
    destruct (done_cancel (g_ctx g) (g_now g)) as [Hd ->].
    split; [discriminate|]. split; auto.
Qed.

(** X3: at every step of an evaluation the checks see one context.  It
    is the bounded context of the evaluation as long as no check has
    failed; from the first failure on it is done ([ctx.Err()] is not
    nil), so that the other checks can stop; and its deadline is the
    one of the bounded context throughout. *)
Theorem first_failure_cancels_the_context
    (sched : scheduler) (h : Timed.Handler) (now : Z) (ctx : Context) (n : nat) :
  let g := progress sched n (Timed.ready_context h now ctx) now (Timed.checks h) in
  (g_err g = None -> g_ctx g = Timed.ready_context h now ctx)
  /\ (forall err, g_err g = Some err -> Err (g_ctx g) (g_now g) <> None)
  /\ deadline (g_ctx g) = deadline (Timed.ready_context h now ctx).
Proof.
  intros g.
  assert (H : canceled_by_failure (Timed.ready_context h now ctx) g).
  { unfold g, progress. apply run_invariant.
    - intros c g' Hg _. apply step_canceled_by_failure; auto.
    - rewrite started_spec. unfold canceled_by_failure; simpl.
      repeat split; auto; congruence. }
  destruct H as (H1 & H2 & H3). split; auto. split; auto.
  intros err He. unfold Err.
  destruct (done (g_ctx g) (g_now g)) eqn:E; [discriminate|].
  exfalso. apply H2; congruence.
Qed.

(* ------------------------------------------------------------------ *)
(** ** How long an evaluation of responsive checks takes *)

Lemma responsive_settled (t : task (option error)) : responsive t -> settled t.
Proof.
  induction t as [e|k IH|d IHd k IHk|k IH]; simpl; auto.
  - intros [H _]; auto.
  - intros [_ H]; auto.
Qed.

(** Time passes for a group of responsive checks only while its context
    is not done. *)
Lemma tick_undone (ctx : Context) (now : Z) (rs : list goroutine) :
  Forall (poised ctx now) rs ->
  Forall (fun r => enabled ctx now r = false) rs ->
  forallb finished rs = false ->
  done ctx now = None.
Proof.
  induction 1 as [|r rs Hr Hall IH]; intros Hen Hf; simpl in Hf; [discriminate|].
  inversion Hen as [|? ? He Hen']; subst.
  destruct r as [[e|k|d k|k]|e]; simpl in *; try discriminate; auto.
  - destruct Hr as [[] _].
  - destruct (done ctx now); [discriminate | reflexivity].
Qed.

Lemma advance_poised (ctx : Context) (now : Z) (r : goroutine) :
  done ctx now = None -> enabled ctx now r = false ->
  poised ctx now r -> poised ctx (now + 1) (advance r).
Proof.
  intros Hd He. destruct r as [[e|k|d k|k]|e]; simpl in *; try discriminate; auto.
  - intros [[] _].
  - intros [_ H]. destruct (H Hd) as [_ Hk]. split; auto. apply responsive_settled; auto.
Qed.

Lemma acts_poised (ctx : Context) (now : Z) (r r' : goroutine) :
  poised ctx now r -> acts ctx now r r' -> poised ctx now r'.
Proof.
  intros H Ha. destruct Ha as [e|k|d k rs Hd]; simpl in *; auto.
  - destruct H as [Hs Hr]. destruct (done ctx now) as [rs|] eqn:E.
    + split; auto. discriminate.
    + destruct (Hr eq_refl) as [Hn _]. split; auto. apply responsive_settled; auto.
  - destruct H as [Hs _]. split; auto. rewrite Hd. discriminate.
Qed.

Lemma poised_canceled (ctx : Context) (now : Z) (r : goroutine) :
  poised ctx now r -> poised (cancel ctx now) now r.
Proof.
  destruct r as [t|e]; simpl; auto. intros [Hs _]. split; auto.
  intros H. destruct (done_cancel ctx now) as [Hd _]. contradiction.
Qed.

Lemma step_poised (c : nat) (g : Group) :
  all_finished g = false ->
  Forall (poised (g_ctx g) (g_now g)) (g_routines g) ->
  Forall (poised (g_ctx (step c g)) (g_now (step c g))) (g_routines (step c g)).
Proof.
  intros Hf Hall.
  destruct (step_cases c g) as [[Hen ->] | (i & r & Hn & Hen & ->)].
  - pose proof (tick_undone _ _ _ Hall Hen Hf) as Hd. simpl.
    apply Forall_map. rewrite Forall_forall in *. intros r Hr.
    apply advance_poised; auto.
  - destruct (act_spec g i Hn Hen) as (r' & Ha & -> & -> & Hcase).
    assert (Hr : poised (g_ctx g) (g_now g) r).
    { rewrite Forall_forall in Hall. apply Hall. eapply nth_error_In; eauto. }
    assert (Hall' : Forall (poised (g_ctx g) (g_now g)) (set_nth i r' (g_routines g))).
    { apply Forall_set_nth; auto. eapply acts_poised; eauto. }
    destruct Hcase as [(err & _ & _ & _ & ->) | (_ & _ & ->)]; auto.
    eapply Forall_impl; [|exact Hall']. intros x. apply poised_canceled.
Qed.

Lemma done_none_deadline (ctx : Context) (now D : Z) :
  deadline ctx = Some D -> done ctx now = None -> now < D.
Proof.
  intros Hd. unfold done. rewrite Hd.
  destruct (reached (canceledAt ctx) now && earlier (canceledAt ctx) (Some D));
    [discriminate|].
  simpl. destruct (Z.leb_spec D now); [discriminate | auto].
Qed.

Lemma step_timely (D n0 : Z) (c : nat) (g : Group) :
  timely D n0 g -> all_finished g = false -> timely D n0 (step c g).
Proof.
  intros (Hd & Hn & Hall) Hf.
  pose proof (step_poised c g Hf Hall) as Hall'.
  unfold timely. split; [|split]; auto.
  - destruct (step_cases c g) as [[_ ->] | (i & r & Hi & Hen & ->)]; auto.
    destruct (act_spec g i Hi Hen) as (_ & _ & _ & _ & [(err & _ & _ & _ & ->) | (_ & _ & ->)]);
      auto.
    destruct (done_cancel (g_ctx g) (g_now g)) as [_ ->]. auto.
  - destruct (step_cases c g) as [[Hen ->] | (i & r & Hi & Hen & ->)].
    + pose proof (tick_undone _ _ _ Hall Hen Hf) as Hu.
      pose proof (done_none_deadline _ _ _ Hd Hu). simpl. lia.
    + destruct (act_spec g i Hi Hen) as (_ & _ & _ & -> & _). auto.
Qed.

(** An evaluation of responsive checks under a context with a deadline
    returns by the deadline. *)
Lemma evaluate_timely (sched : scheduler) (ctx : Context) (D now : Z) (cs : list Check) :
  deadline ctx = Some D ->
  Forall responsive cs ->
  now <= g_now (evaluate sched ctx now cs) <= Z.max now D.
Proof.
  intros Hd Hall.
  destruct (evaluate_awaited sched ctx now cs) as (_ & _ & ->).
  assert (H : timely D now (awaited sched ctx now cs)).
  { apply awaited_invariant.
    - intros c g. apply step_timely.
    - unfold timely; simpl. split; auto. split; [lia|].
      apply Forall_map. eapply Forall_impl; [|exact Hall].
      intros t Ht. simpl. split; auto. apply responsive_settled; auto. }
  destruct H as (_ & H & _). exact H.
Qed.

(** X4: with a readiness timeout above 0 and checks that watch their
    context, [ExecuteReadyChecks] returns within the timeout, and no
    later than the caller's deadline if that one is earlier (or at once
    if it has passed). *)
Theorem responsive_checks_return_within_timeout
    (sched : scheduler) (h : Timed.Handler) (now : Z) (ctx : Context) :
  writer (Timed.lock h) = false ->
  Timed.ReadynessTimeout h > 0 ->
  Forall responsive (Timed.checks h) ->
  exists x,
    Timed.ExecuteReadyChecks sched h now ctx = Some (h, x)
    /\ now <= Timed.ex_now x <= now + Timed.ReadynessTimeout h
    /\ (forall d, deadline ctx = Some d -> Timed.ex_now x <= Z.max now d).
Proof.
  intros Hw Ht Hall. eexists. split; [apply ExecuteReadyChecks_spec; exact Hw|]. fields.
  destruct (ready_context_deadline h now ctx Ht) as [Hd _].
  pose proof (evaluate_timely sched _ _ now _ Hd Hall) as H.
  split.
  - destruct (deadline ctx); lia.
  - intros d Hdc. rewrite Hdc in H. lia.
Qed.

(** The theorem at the timeout test. *)
Lemma responsive_checks_return_within_timeout_witness :
  writer (Timed.lock patient_handler) = false
  /\ Timed.ReadynessTimeout patient_handler > 0
  /\ Forall responsive (Timed.checks patient_handler)
  /\ exists x,
      Timed.ExecuteReadyChecks (fun _ => O) patient_handler 0 Background
      = Some (patient_handler, x)
      /\ 0 <= Timed.ex_now x <= 1.
Proof.
  assert (Hr : Forall responsive (Timed.checks patient_handler)).
  { repeat constructor. }
  split; [reflexivity|]. split; [reflexivity|]. split; [exact Hr|].
  destruct (responsive_checks_return_within_timeout (fun _ => O) patient_handler 0
              Background eq_refl eq_refl Hr) as (x & Hx & Hn & _).
  exists x. split; [exact Hx | exact Hn].
Defined.

Lemma Forall2_map_right_In {A B : Type} (R R' : A -> B -> Prop) (f : B -> B)
    (xs : list A) (ys : list B) :
  Forall2 R xs ys ->
  (forall x y, In y ys -> R x y -> R' x (f y)) ->
  Forall2 R' xs (map f ys).
Proof.
  induction 1 as [|x y xs ys Hxy H IH]; intros Hf; simpl; constructor.
  - apply Hf; [left; reflexivity | exact Hxy].
  - apply IH. intros x' y' Hin. apply Hf. right; exact Hin.
Qed.

Lemma fails_by_always (m : nat) (t : task (option error)) : fails_by m t -> always_fails t.
Proof.
  revert m. induction t as [[e|]|k IH|d IHd k IHk|k IH]; simpl; intros m; auto.
  - destruct m; [contradiction | apply IH].
  - intros [Hd Hk]. split; [|intros r; eapply IHd; eauto].
    destruct m; [contradiction | eapply IHk; eauto].
  - intros H x. eapply IH; eauto.
Qed.

Lemma acts_impending (k : nat) (n0 : Z) (ctx : Context) (now : Z) (r r' : goroutine) :
  impending k n0 now r -> acts ctx now r r' -> impending k n0 now r'.
Proof.
  intros [(m & t & -> & Hf & Hm) | (e & ->)] Ha; inversion Ha; subst; simpl in Hf.
  - destruct e as [e|]; [|contradiction]. right. eauto.
  - left. eauto.
  - left. destruct Hf as [Hf _]. eauto.
Qed.

Lemma advance_impending (k : nat) (n0 : Z) (ctx : Context) (now : Z) (r : goroutine) :
  done ctx now = None -> enabled ctx now r = false -> poised ctx now r ->
  impending k n0 now r ->
  impending k n0 (now + 1) (advance r) /\ (finished r = false -> now + 1 <= n0 + Z.of_nat k).
Proof.
  intros Hd He Hp [(m & t & -> & Hf & Hm) | (e & ->)].
  - destruct t as [e|t|d t|t]; simpl in *; try discriminate.
    + destruct Hp as [[] _].
    + destruct Hf as [_ Hf]. destruct m as [|m]; [contradiction|].
      split; [|lia]. left. exists m, t. split; auto. split; auto. lia.
  - simpl. split; [right; eauto | discriminate].
Qed.

Lemma step_failing_soon (k : nat) (n0 : Z) (cs : list Check) (c : nat) (g : Group) :
  Exists (fails_by k) cs ->
  failing_soon k n0 cs g -> all_finished g = false -> failing_soon k n0 cs (step c g).
Proof.
  intros Hex (Herr & Hdone & Hn & Hall & Himp) Hf.
  pose proof (@step_err_recorded c g Herr) as Herr'.
  pose proof (step_poised c g Hf Hall) as Hall'.
  unfold failing_soon. split; [exact Herr'|].
  split; [|split; [|split; [exact Hall'|]]];
    clear Herr' Hall';
    destruct (step_cases c g) as [[Hen ->] | (i & r & Hi & Hen & ->)].
  - pose proof (tick_undone _ _ _ Hall Hen Hf) as Hu. simpl.
    intros He. specialize (Hdone He). congruence.
  - destruct (act_spec g i Hi Hen) as (r' & Ha & Hr & Hnow & Hcase). rewrite Hnow.
    destruct Hcase as [(err & _ & _ & _ & ->) | (_ & He & ->)].
    + intros _. apply done_cancel.
    + rewrite He. exact Hdone.
  - pose proof (tick_undone _ _ _ Hall Hen Hf) as Hu. simpl.
    assert (Hg : g_err g = None).
    { destruct (g_err g); auto. exfalso. apply Hdone; [discriminate | auto]. }
    destruct (@Forall2_Exists_right _ _ _ _ _ _ Himp Hex) as (r & Hin & Hr).
    rewrite Forall_forall in Hall, Hen.
    destruct (advance_impending k n0 _ _ r Hu (Hen r Hin) (Hall r Hin) Hr) as [_ Hb].
    destruct Herr as [Hnf _]. specialize (Hnf Hg). rewrite Forall_forall in Hnf.
    specialize (Hnf r Hin).
    destruct Hr as [(m & t & -> & _) | (e & ->)]; [|discriminate].
    specialize (Hb eq_refl). lia.
  - destruct (act_spec g i Hi Hen) as (r' & Ha & Hr & Hnow & Hcase). rewrite Hnow. exact Hn.
  - pose proof (tick_undone _ _ _ Hall Hen Hf) as Hu. simpl.
    rewrite Forall_forall in Hall, Hen.
    eapply Forall2_map_right_In; [exact Himp|].
    intros x r Hin Hxr Hx.
    apply (advance_impending k n0 (g_ctx g) (g_now g) r); auto.
  - destruct (act_spec g i Hi Hen) as (r' & Ha & Hr & Hnow & Hcase). rewrite Hnow, Hr.
    eapply Forall2_set_nth; eauto.
    intros x Hx Hfx. eapply acts_impending; eauto.
Qed.

(** An evaluation of responsive checks one of which fails within [k]
    ticks fails within [k] ticks. *)
Lemma evaluate_failing_soon (sched : scheduler) (ctx : Context) (now : Z) (cs : list Check)
    (k : nat) :
  Forall responsive cs ->
  Exists (fails_by k) cs ->
  g_err (evaluate sched ctx now cs) <> None
  /\ now <= g_now (evaluate sched ctx now cs) <= now + Z.of_nat k.
Proof.
  intros Hall Hex. split.
  - assert (Hex' : Exists always_fails cs).
    { apply Exists_exists in Hex. destruct Hex as (c & Hin & Hc).
      apply Exists_exists. exists c. split; auto. eapply fails_by_always; eauto. }
    destruct (evaluate_failure sched ctx now Hex') as (err & -> & _). discriminate.
  - destruct (evaluate_awaited sched ctx now cs) as (_ & _ & ->).
    assert (H : failing_soon k now cs (awaited sched ctx now cs)).
    { apply awaited_invariant.
      - intros c g. apply step_failing_soon; auto.
      - unfold failing_soon; simpl. split; [|split; [|split; [|split]]].
        + split; simpl; [|discriminate]. intros _. apply Forall_map, Forall_forall. auto.
        + congruence.
        + lia.
        + apply Forall_map. eapply Forall_impl; [|exact Hall].
          intros t Ht. simpl. split; auto. apply responsive_settled; auto.
        + clear. induction cs as [|c cs IH]; simpl; constructor; auto.
          intros Hc. left. exists k, c. split; auto. split; auto. lia. }
    destruct H as (_ & _ & H & _). exact H.
Qed.

(** X5: when the checks watch their context, a check that fails within
    [k] ticks makes [ExecuteReadyChecks] return a failure within [k]
    ticks, however long the other checks would have taken and whatever
    the timeout is. *)
Theorem responsive_checks_return_at_first_failure
    (sched : scheduler) (h : Timed.Handler) (now : Z) (ctx : Context) (k : nat) :
  writer (Timed.lock h) = false ->
  Forall responsive (Timed.checks h) ->
  Exists (fails_by k) (Timed.checks h) ->
  exists x err,
    Timed.ExecuteReadyChecks sched h now ctx = Some (h, x)
    /\ Timed.ex_err x = Some err
    /\ now <= Timed.ex_now x <= now + Z.of_nat k.
Proof.
  intros Hw Hall Hex.
  destruct (evaluate_failing_soon sched (Timed.ready_context h now ctx) now
              (Timed.checks h) k Hall Hex) as [He Hn].
  destruct (g_err (evaluate sched (Timed.ready_context h now ctx) now (Timed.checks h)))
    as [err|] eqn:E; [|congruence].
  eexists. exists err. split; [apply ExecuteReadyChecks_spec; exact Hw|]. fields.
  split; auto.
Qed.

(** The theorem at a check that fails after two ticks beside one that
    waits a hundred, without a timeout. *)
Lemma responsive_checks_return_at_first_failure_witness :
  writer (Timed.lock impatient) = false
  /\ Forall responsive (Timed.checks impatient)
  /\ Exists (fails_by 2) (Timed.checks impatient)
  /\ exists x err,
      Timed.ExecuteReadyChecks (fun n => n) impatient 0 Background = Some (impatient, x)
      /\ Timed.ex_err x = Some err
      /\ 0 <= Timed.ex_now x <= 2.
Proof.
  assert (Hr : Forall responsive (Timed.checks impatient)).
  { constructor; [|constructor; [|constructor]].
    - simpl. repeat split.
    - unfold AwaitFor. simpl. repeat split. }
  assert (Hf : Exists (fails_by 2) (Timed.checks impatient)).
  { left. simpl. repeat split. }
  split; [reflexivity|]. split; [exact Hr|]. split; [exact Hf|].
  apply (responsive_checks_return_at_first_failure (fun n => n) impatient 0 Background 2
           eq_refl Hr Hf).
Defined.

(* ------------------------------------------------------------------ *)
(** ** The timeout and the options *)

Lemma Timed_handleReady_spec (sched : scheduler) (h : Timed.Handler) (now : Z)
    (w : ResponseWriter) (r : Request) :
  writer (Timed.lock h) = false ->
  let G := evaluate sched (Timed.ready_context h now (req_Context r)) now (Timed.checks h) in
  Timed.handleReady sched h now w r
  = Some (h, mkServed
               (WriteHeader (match g_err G with
                             | Some _ => StatusServiceUnavailable
                             | None => StatusNoContent
                             end) w)
               (match g_err G, Timed.ErrorLogger h with
                | Some err, Some f => [Invoke f err]
                | _, _ => []
                end)
               (g_routines G) (g_now G)).
Proof.
  intros Hw G. unfold Timed.handleReady.
  rewrite (ExecuteReadyChecks_spec sched h now (req_Context r) Hw). fold G. fields.
  destruct (g_err G); reflexivity.
Qed.

(** X6: a readiness timeout of 0 or less disables the bound: the checks
    are run under the caller's context as it is, and [handleReady]
    answers, logs and takes the time that [handleReady] of
    [src/healthcheck.go] does with the same checks and callback. *)
Theorem no_timeout_serves_as_the_plain_handler
    (sched : scheduler) (ht : Timed.Handler) (hp : Plain.Handler) (now : Z)
    (w : ResponseWriter) (r : Request) :
  writer (Timed.lock ht) = false ->
  Timed.ReadynessTimeout ht <= 0 ->
  Plain.checks hp = Timed.checks ht ->
  Plain.errorLogFunc hp = Timed.ErrorLogger ht ->
  Plain.lock hp = Timed.lock ht ->
  Timed.ready_context ht now (req_Context r) = req_Context r
  /\ exists s,
      Timed.handleReady sched ht now w r = Some (ht, s)
      /\ Plain.handleReady sched hp now w r = Some (hp, s).
Proof.
  intros Hw Ht Hc Hl Hk.
  assert (Hctx : Timed.ready_context ht now (req_Context r) = req_Context r).
  { unfold Timed.ready_context.
    destruct (Z.gtb_spec (Timed.ReadynessTimeout ht) 0); [lia | reflexivity]. }
  split; [exact Hctx|]. eexists. split.
  - apply Timed_handleReady_spec. exact Hw.
  - rewrite handleReady_spec by (rewrite Hk; exact Hw).
    rewrite Hctx, Hc, Hl. reflexivity.
Qed.

(** The theorem at two handlers with the same two checks. *)
Lemma no_timeout_serves_as_the_plain_handler_witness :
  exists s,
    Timed.handleReady (fun n => n) untimed 0 NewRecorder (get ReadyPath) = Some (untimed, s)
    /\ Plain.handleReady (fun n => n) untimed_plain 0 NewRecorder (get ReadyPath)
       = Some (untimed_plain, s).
Proof.
  apply (no_timeout_serves_as_the_plain_handler (fun n => n) untimed untimed_plain 0
           NewRecorder (get ReadyPath) eq_refl).
  - discriminate.
  - reflexivity.
  - reflexivity.
  - reflexivity.
Defined.

(** X7: the readiness timeout only tightens the caller's context: at
    every instant the bounded context is done exactly if the caller's
    is done or the timeout has elapsed. *)
Theorem bounded_context_is_done_with_caller_or_timeout
    (h : Timed.Handler) (start : Z) (ctx : Context) (now : Z) :
  Timed.ReadynessTimeout h > 0 ->
  (Err (Timed.ready_context h start ctx) now <> None
   <-> Err ctx now <> None \/ start + Timed.ReadynessTimeout h <= now).
Proof.
  intros Ht. unfold Timed.ready_context.
  destruct (Z.gtb_spec (Timed.ReadynessTimeout h) 0) as [_|]; [|lia].
  generalize (Timed.ReadynessTimeout h). intros t.
  destruct ctx as [[d|] [c|]];
    unfold Err, WithTimeout, WithDeadline, done, reached, earlier; simpl;
    repeat match goal with
           | |- context [?a <=? ?b] => destruct (Z.leb_spec a b); simpl
           | |- context [?a <? ?b] => destruct (Z.ltb_spec a b); simpl
           end;
    (split; [intros Hx; try (left; discriminate); try (right; lia); try congruence
            | intros [Hx|Hx]; try discriminate; try congruence; try lia]).
Qed.

(** The theorem at a caller with a deadline and a cancellation, under a
    timeout of ten seconds. *)
Lemma bounded_context_is_done_with_caller_or_timeout_witness :
  Timed.ReadynessTimeout failing_timed > 0
  /\ Err (Timed.ready_context failing_timed 0 hurried) 3 <> None.
Proof.
  split; [reflexivity|].
  apply (bounded_context_is_done_with_caller_or_timeout failing_timed 0 hurried 3 eq_refl).
  left. discriminate.
Defined.

Lemma apply_opts_builtin (opts : list (option Timed.Option)) :
  Forall builtin opts ->
  forall h, Timed.checks (Timed.apply_opts opts h) = Timed.checks h
            /\ Timed.lock (Timed.apply_opts opts h) = Timed.lock h
            /\ Timed.mux (Timed.apply_opts opts h) = Timed.mux h
            /\ Timed.infoPayload (Timed.apply_opts opts h) = Timed.infoPayload h.
Proof.
  induction 1 as [|o opts Ho Hall IH]; intros h; simpl; auto.
  unfold Timed.apply_opts in *. simpl.
  destruct Ho as [|l|t]; simpl;
    match goal with |- context [fold_left ?f opts ?h0] => destruct (IH h0) as (-> & -> & -> & ->) end;
    auto.
Qed.

Lemma New_builtin (opts : list (option Timed.Option)) :
  Forall builtin opts ->
  Timed.New opts
  = Some (Timed.mkHandler
            (Timed.ErrorLogger
               (Timed.apply_opts opts
                  (Timed.mkHandler None Timed.DefaultReadynessCheckTimeout [] unlocked
                     NewServeMux "")))
            (Timed.ReadynessTimeout
               (Timed.apply_opts opts
                  (Timed.mkHandler None Timed.DefaultReadynessCheckTimeout [] unlocked
                     NewServeMux "")))
            [] unlocked base_mux "").
Proof.
  intros H. unfold Timed.New. cbv zeta.
  destruct (apply_opts_builtin opts H
              (Timed.mkHandler None Timed.DefaultReadynessCheckTimeout [] unlocked
                 NewServeMux "")) as (Hc & Hl & Hm & Hp).
  rewrite Hc, Hl, Hm, Hp. reflexivity.
Qed.

(** X8: [New] applies the options in their order, skips a nil option,
    and lets the last option of a kind decide: without options the
    timeout is the default of ten seconds and there is no error logger.
    With the options of the package the handler starts with an empty
    registry, a free lock, the two routes and no info payload. *)
Theorem new_applies_the_options_in_order (opts : list (option Timed.Option)) :
  Forall builtin opts ->
  exists h,
    Timed.New opts = Some h
    /\ Timed.checks h = [] /\ Timed.lock h = unlocked /\ Timed.mux h = base_mux
    /\ Timed.infoPayload h = ""
    /\ (opts = [] ->
        Timed.ReadynessTimeout h = 10 * Timed.Second /\ Timed.ErrorLogger h = None)
    /\ Timed.New (opts ++ [None]) = Some h
    /\ (forall t,
          Timed.New (opts ++ [Some (Timed.WithReadynessTimeout t)])
          = Some (Timed.WithReadynessTimeout t h))
    /\ (forall l,
          Timed.New (opts ++ [Some (Timed.WithErrorLogger l)])
          = Some (Timed.WithErrorLogger l h)).
Proof.
  intros H. eexists. split; [apply New_builtin; exact H|]. simpl.
  repeat split.
  - subst opts. reflexivity.
  - subst opts. reflexivity.
  - rewrite New_builtin by (apply Forall_app; split; auto; repeat constructor).
    unfold Timed.apply_opts. rewrite fold_left_app. reflexivity.
  - intros t. rewrite New_builtin by (apply Forall_app; split; auto; repeat constructor).
    unfold Timed.apply_opts. rewrite fold_left_app. reflexivity.
  - intros l. rewrite New_builtin by (apply Forall_app; split; auto; repeat constructor).
    unfold Timed.apply_opts. rewrite fold_left_app. reflexivity.
Qed.

(** The theorem at [New(WithReadynessTimeout(5), nil, WithErrorLogger(f))]
    followed by a second timeout. *)
Lemma new_applies_the_options_in_order_witness :
  exists h,
    Timed.New [Some (Timed.WithReadynessTimeout 5); None;
               Some (Timed.WithErrorLogger (Some (Callback 1)))] = Some h
    /\ Timed.New [Some (Timed.WithReadynessTimeout 5); None;
                  Some (Timed.WithErrorLogger (Some (Callback 1)));
                  Some (Timed.WithReadynessTimeout 1)]
       = Some (Timed.WithReadynessTimeout 1 h).
Proof.
  assert (Hb : Forall builtin [Some (Timed.WithReadynessTimeout 5); None;
                               Some (Timed.WithErrorLogger (Some (Callback 1)))]).
  { repeat constructor. }
  destruct (new_applies_the_options_in_order _ Hb) as (h & Hh & _ & _ & _ & _ & _ & _ & Ht & _).
  exists h. split; [exact Hh | exact (Ht 1)].
Defined.

(* ------------------------------------------------------------------ *)
(** ** The answers of the handler of [src/healthcheck.go] *)

Lemma written_status (code : Z) (w : ResponseWriter) :
  Code w = None ->
  StatusCode (WriteHeader code w) = code
  /\ Body (WriteHeader code w) = Body w
  /\ Header (WriteHeader code w) = Header w.
Proof. intros Hw. unfold StatusCode, WriteHeader. rewrite Hw. simpl. auto. Qed.

(** X9: a failing check, once registered, makes every later readiness
    request answer 503, whatever else is called on the handler: no call
    removes a check.  The answer has the status only: nothing is written
    to the body or to the headers. *)
Theorem failing_check_keeps_readiness_unavailable
    (f : option callback) (ops : list operation) (h : Plain.Handler)
    (sched : scheduler) (now : Z) (w : ResponseWriter) (method : string) (ctx : Context) :
  after f ops = Some h ->
  Exists always_fails (flat_map registers ops) ->
  Code w = None ->
  exists s,
    Plain.ServeHTTP sched h now w (mkRequest method ReadyPath ctx) = Some (h, s)
    /\ StatusCode (sv_writer s) = StatusServiceUnavailable
    /\ Body (sv_writer s) = Body w
    /\ Header (sv_writer s) = Header w.
Proof.
  intros Ha Hex Hcode. destruct (after_spec _ _ _ Ha) as [[Hl Hm] Hc].
  assert (Hw : writer (Plain.lock h) = false) by (rewrite Hl; reflexivity).
  rewrite <- Hc in Hex.
  destruct (evaluate_failure sched ctx now Hex) as (err & He & _).
  unfold Plain.ServeHTTP. cbn [Method Path]. rewrite (find_ready _ _ Hm).
  eexists. split; [apply handleReady_spec; exact Hw|]. fields. cbn [req_Context].
  rewrite He. apply written_status. exact Hcode.
Qed.

(** The theorem at the sample program, whose second check fails. *)
Lemma failing_check_keeps_readiness_unavailable_witness :
  exists h s,
    after None sample_calls = Some h
    /\ Plain.ServeHTTP (fun n => n) h 0 NewRecorder (mkRequest MethodGet ReadyPath Background)
       = Some (h, s)
    /\ StatusCode (sv_writer s) = StatusServiceUnavailable.
Proof.
  assert (H : exists h, after None sample_calls = Some h) by (eexists; reflexivity).
  destruct H as [h H].
  assert (Hex : Exists always_fails (flat_map registers sample_calls)).
  { right. left. exact I. }
  destruct (failing_check_keeps_readiness_unavailable None sample_calls h (fun n => n) 0
              NewRecorder MethodGet Background H Hex eq_refl) as (s & Hs & Hc & _).
  exists h, s. auto.
Defined.




Lemma Header_Get_Set_same (key value : string) (w : ResponseWriter) :
  Header_Get key (Header (Header_Set key value w)) = Some value.
Proof. simpl. rewrite String.eqb_refl. reflexivity. Qed.

Lemma Header_Get_filter (key other : string) (hs : list (string * string)) :
  other <> key ->
  Header_Get key (filter (fun kv => negb (String.eqb (fst kv) other)) hs) = Header_Get key hs.
Proof.
  intros Hne. induction hs as [|[k v] hs IH]; simpl; auto.
  destruct (String.eqb_spec k other) as [->|Hk]; simpl.
  - destruct (String.eqb_spec other key); [congruence | exact IH].
  - rewrite IH. reflexivity.
Qed.

Lemma Header_Get_Set_other (key other value : string) (w : ResponseWriter) :
  other <> key ->
  Header_Get key (Header (Header_Set other value w)) = Header_Get key (Header w).
Proof.
  intros Hne. simpl. destruct (String.eqb_spec other key); [congruence|].
  apply Header_Get_filter. exact Hne.
Qed.

(** X11: the info response of [src/healthcheck.go] declares its content
    type, JSON in UTF-8, and carries the length of the payload under
    the header [Content-Lengt]; the header [Content-Length] is left as
    the writer had it. *)
Theorem plain_info_response_headers
    (f : option callback) (ops : list operation) (h : Plain.Handler)
    (info : option BuildInfo) (infoData : option gomap) (h1 : Plain.Handler)
    (sched : scheduler) (now : Z) (w : ResponseWriter) (method : string) (ctx : Context) :
  after f ops = Some h ->
  Plain.EnableInfo info h infoData = Some h1 ->
  Code w = None ->
  exists s,
    Plain.ServeHTTP sched h1 now w (mkRequest method InfoPath ctx) = Some (h1, s)
    /\ Header_Get "Content-Type" (Header (sv_writer s))
       = Some "application/json; charset=UTF-8"
    /\ Header_Get "Content-Lengt" (Header (sv_writer s))
       = Some (Itoa (Z.of_nat (String.length (Plain.infoPayload h1))))
    /\ Header_Get "Content-Length" (Header (sv_writer s))
       = Header_Get "Content-Length" (Header w).
Proof.
  intros Ha He Hw. destruct (after_spec _ _ _ Ha) as [Hr _].
  destruct (EnableInfo_spec _ _ _ _ Hr He) as (_ & _ & Hh1).
  assert (Hm1 : Plain.mux h1 = info_mux) by (rewrite Hh1; reflexivity).
  unfold Plain.ServeHTTP. cbn [Method Path]. rewrite Hm1.
  destruct (find_info method) as [_ ->].
  unfold Plain.handleInfo. cbv zeta. eexists. split; [reflexivity|].
  cbn [sv_writer].
  set (w1 := Header_Set "Content-Type" "application/json; charset=UTF-8" w).
  set (w2 := Header_Set "Content-Lengt" _ w1).
  assert (Hh : Header (Write (Plain.infoPayload h1) (WriteHeader StatusOK w2)) = Header w2).
  { unfold Write, WriteHeader. simpl. rewrite Hw. reflexivity. }
  rewrite Hh. split; [|split].
  - unfold w2. rewrite Header_Get_Set_other by discriminate.
    unfold w1. apply Header_Get_Set_same.
  - unfold w2. apply Header_Get_Set_same.
  - unfold w2. rewrite Header_Get_Set_other by discriminate.
    unfold w1. rewrite Header_Get_Set_other by discriminate. reflexivity.
Qed.

(** The theorem at the handler of the info test. *)
Lemma plain_info_response_headers_witness :
  exists h h1 s,
    after None [] = Some h
    /\ Plain.EnableInfo (Some (mkBuildInfo "" [])) h None = Some h1
    /\ Plain.ServeHTTP (fun n => n) h1 0 NewRecorder (mkRequest MethodGet InfoPath Background)
       = Some (h1, s)
    /\ Header_Get "Content-Lengt" (Header (sv_writer s)) = Some "34"
    /\ Header_Get "Content-Length" (Header (sv_writer s)) = None.
Proof.
  assert (Ha : exists h, after None [] = Some h) by (eexists; reflexivity).
  destruct Ha as [h Ha].
  assert (He : exists h1, Plain.EnableInfo (Some (mkBuildInfo "" [])) h None = Some h1).
  { injection Ha as <-. eexists; reflexivity. }
  destruct He as [h1 He].
  destruct (plain_info_response_headers None [] h _ None h1 (fun n => n) 0 NewRecorder
              MethodGet Background Ha He eq_refl) as (s & Hs & _ & Hl & Hn).
  exists h, h1, s. split; [exact Ha|]. split; [exact He|]. split; [exact Hs|].
  split.
  - rewrite Hl. injection Ha as <-. injection He as <-. reflexivity.
  - rewrite Hn. reflexivity.
Defined.

(* ------------------------------------------------------------------ *)
(** ** The answers of the handler with options *)

Lemma Timed_AddCheck_spec (h : Timed.Handler) (c : Check) :
  Timed.lock h = unlocked ->
  Timed.AddCheck h c
  = Some (Timed.mkHandler (Timed.ErrorLogger h) (Timed.ReadynessTimeout h)
            (Timed.checks h ++ [c])%list unlocked (Timed.mux h) (Timed.infoPayload h)).
Proof. intros Hl. unfold Timed.AddCheck. rewrite Hl. reflexivity. Qed.

Lemma Timed_add_all_spec (cs : list Check) :
  forall h, Timed.lock h = unlocked ->
    Timed_add_all h cs
    = Some (Timed.mkHandler (Timed.ErrorLogger h) (Timed.ReadynessTimeout h)
              (Timed.checks h ++ cs)%list unlocked (Timed.mux h) (Timed.infoPayload h)).
Proof.
  induction cs as [|c cs IH]; intros h Hl; simpl.
  - rewrite app_nil_r. destruct h; simpl in *. subst. reflexivity.
  - rewrite Timed_AddCheck_spec by exact Hl. rewrite IH by reflexivity. simpl.
    rewrite <- app_assoc. reflexivity.
Qed.

(** A handler made by [New] with options of the package, after some
    registrations. *)
Lemma Timed_registered (opts : list (option Timed.Option)) (cs : list Check)
    (h0 h : Timed.Handler) :
  Forall builtin opts -> Timed.New opts = Some h0 -> Timed_add_all h0 cs = Some h ->
  Timed.checks h = cs /\ Timed.lock h = unlocked /\ Timed.mux h = base_mux
  /\ Timed.ReadynessTimeout h = Timed.ReadynessTimeout h0
  /\ Timed.ErrorLogger h = Timed.ErrorLogger h0.
Proof.
  intros Hb Hn Ha. rewrite (New_builtin opts Hb) in Hn. injection Hn as <-.
  rewrite Timed_add_all_spec in Ha by reflexivity. injection Ha as <-. simpl. auto.
Qed.



(** X13: in the handler with options, [EnableInfo] on a handler made by
    [New] marshals the info data once; every info request is then
    answered 200 with these bytes, declared as JSON in UTF-8, and with
    a [Content-Length] that is the length of the body. *)
Theorem timed_info_response
    (opts : list (option Timed.Option)) (cs : list Check) (h0 h : Timed.Handler)
    (info : option BuildInfo) (infoData : option gomap) (h1 : Timed.Handler)
    (sched : scheduler) (now : Z) (w : ResponseWriter) (method : string) (ctx : Context) :
  Forall builtin opts ->
  Timed.New opts = Some h0 ->
  Timed_add_all h0 cs = Some h ->
  Timed.EnableInfo info h infoData = Some h1 ->
  Code w = None -> Body w = "" ->
  exists s,
    Timed.ServeHTTP sched h1 now w (mkRequest method InfoPath ctx) = Some (h1, s)
    /\ StatusCode (sv_writer s) = StatusOK
    /\ json_Marshal (VMap (info_data info infoData)) = Some (Body (sv_writer s))
    /\ Header_Get "Content-Type" (Header (sv_writer s))
       = Some "application/json; charset=UTF-8"
    /\ Header_Get "Content-Length" (Header (sv_writer s))
       = Some (Itoa (Z.of_nat (String.length (Body (sv_writer s)))))
    /\ sv_routines s = [] /\ sv_trace s = [] /\ sv_now s = now.
Proof.
  intros Hb Hn Ha He Hw Hbody.
  destruct (Timed_registered opts cs h0 h Hb Hn Ha) as (Hc & Hl & Hm & _ & _).
  unfold Timed.EnableInfo in He. rewrite Hm in He.
  destruct (json_Marshal (VMap (info_data info infoData))) as [payload|]; [|discriminate].
  simpl in He. injection He as <-.
  unfold Timed.ServeHTTP. cbn [Method Path Timed.mux].
  change (mux_find _ method InfoPath) with (Matched handleInfo_). cbv iota.
  unfold Timed.handleInfo. cbv zeta. cbn [Timed.infoPayload].
  eexists. split; [reflexivity|]. cbn [sv_writer sv_routines sv_trace sv_now].
  set (w1 := Header_Set "Content-Type" "application/json; charset=UTF-8" w).
  set (w2 := Header_Set "Content-Length" _ w1).
  assert (Hres : Write payload (WriteHeader StatusOK w2)
                 = mkResponseWriter (Header w2) (Some StatusOK) payload).
  { unfold Write, WriteHeader. simpl. rewrite Hw. simpl. rewrite Hbody. reflexivity. }
  rewrite Hres. simpl Body. simpl Header. unfold StatusCode. simpl Code.
  repeat split.
Qed.

(** The theorem at the handler of the info test. *)
Lemma timed_info_response_witness :
  exists h0 h1 s,
    Timed.New [] = Some h0
    /\ Timed.EnableInfo (Some (mkBuildInfo "" [])) h0 None = Some h1
    /\ Timed.ServeHTTP (fun n => n) h1 0 NewRecorder (mkRequest MethodGet InfoPath Background)
       = Some (h1, s)
    /\ Header_Get "Content-Length" (Header (sv_writer s)) = Some "34"
    /\ String.length (Body (sv_writer s)) = 34%nat.
Proof.
  assert (H0 : exists h0, Timed.New [] = Some h0) by (eexists; reflexivity).
  destruct H0 as [h0 H0].
  assert (He : exists h1, Timed.EnableInfo (Some (mkBuildInfo "" [])) h0 None = Some h1).
  { injection H0 as <-. eexists; reflexivity. }
  destruct He as [h1 He].
  destruct (timed_info_response [] [] h0 h0 _ None h1 (fun n => n) 0 NewRecorder MethodGet
              Background (Forall_nil _) H0 eq_refl He eq_refl eq_refl)
    as (s & Hs & _ & Hj & _ & Hl & _).
  exists h0, h1, s. split; [exact H0|]. split; [exact He|]. split; [exact Hs|].
  injection Hj as Hj. rewrite Hl, <- Hj. split; reflexivity.
Defined.

(* ------------------------------------------------------------------ *)
(** ** The info data *)

Lemma map_get_filter (key other : string) (m : gomap) :
  other <> key ->
  map_get key (filter (fun kv => negb (String.eqb (fst kv) other)) m) = map_get key m.
Proof.
  intros Hne. induction m as [|[k v] m IH]; simpl; auto.
  destruct (String.eqb_spec k other) as [->|Hk]; simpl.
  - destruct (String.eqb_spec other key); [congruence | exact IH].
  - rewrite IH. reflexivity.
Qed.

Lemma map_get_set_same (key : string) (v : any) (m : gomap) :
  map_get key (map_set key v m) = Some v.
Proof. unfold map_set. simpl. rewrite String.eqb_refl. reflexivity. Qed.

Lemma map_get_set_other (key other : string) (v : any) (m : gomap) :
  other <> key -> map_get key (map_set other v m) = map_get key m.
Proof.
  intros Hne. unfold map_set. simpl.
  destruct (String.eqb_spec other key); [congruence|]. apply map_get_filter. exact Hne.
Qed.

(** X14: [EnableInfo] merges the build information into the caller's
    fields: every field of the caller under another key is kept with
    its value, a field of the caller named [version] or
    [build_settings] is overwritten. *)
Theorem info_data_keeps_the_other_fields
    (bi : BuildInfo) (m : gomap) (key : string) :
  key <> "version" -> key <> "build_settings" ->
  map_get key (info_data (Some bi) (Some m)) = map_get key m
  /\ map_get "version" (info_data (Some bi) (Some m)) = Some (VString (Main_Version bi))
  /\ map_get "build_settings" (info_data (Some bi) (Some m))
     = Some (VMap (settings_map (Settings bi))).
Proof.
  intros H1 H2. unfold info_data. split; [|split].
  - rewrite map_get_set_other by congruence. apply map_get_set_other. congruence.
  - rewrite map_get_set_other by discriminate. apply map_get_set_same.
  - apply map_get_set_same.
Qed.

(** The theorem at a caller who sets a name and a version. *)
Lemma info_data_keeps_the_other_fields_witness :
  map_get "name" (info_data (Some (mkBuildInfo "v1.0.0" [])) (Some caller_data))
  = Some (VString "svc")
  /\ map_get "version" (info_data (Some (mkBuildInfo "v1.0.0" [])) (Some caller_data))
     = Some (VString "v1.0.0").
Proof.
  destruct (info_data_keeps_the_other_fields (mkBuildInfo "v1.0.0" []) caller_data "name")
    as (Hk & Hv & _); try discriminate.
  split; [rewrite Hk; reflexivity | exact Hv].
Defined.

Lemma settings_map_snoc (ss : list (string * string)) (k v : string) :
  settings_map (ss ++ [(k, v)]) = map_set k (VString v) (settings_map ss).
Proof. unfold settings_map. rewrite fold_left_app. reflexivity. Qed.

(** X15: the build settings are collected into a map in their order: a
    key that occurs more than once has the value of its last
    occurrence, and the other keys keep theirs. *)
Theorem last_build_setting_wins (ss : list (string * string)) (k v : string) :
  map_get k (settings_map (ss ++ [(k, v)])) = Some (VString v)
  /\ (forall k', k' <> k ->
        map_get k' (settings_map (ss ++ [(k, v)])) = map_get k' (settings_map ss))
  /\ (forall k', map_get k' (settings_map []) = None).
Proof.
  rewrite settings_map_snoc. split; [apply map_get_set_same|]. split.
  - intros k' Hne. apply map_get_set_other. congruence.
  - reflexivity.
Qed.

Lemma json_Marshal_VMap (m : list (string * any)) :
  json_Marshal (VMap m)
  = option_map
      (fun fs => "{" ++ String.concat "," (map json_field (sort_fields fs)) ++ "}")
      (marshal_fields m).
Proof.
  reflexivity.
Qed.

Lemma marshal_fields_fail (m : list (string * any)) (k : string) (v : any) :
  In (k, v) m -> json_Marshal v = None -> marshal_fields m = None.
Proof.
  induction m as [|[k' x] m IH]; simpl; [contradiction|].
  intros [[= -> ->] | Hin] Hv.
  - rewrite Hv. reflexivity.
  - rewrite (IH Hin Hv). destruct (json_Marshal x); reflexivity.
Qed.

Lemma marshal_fields_ok (m : list (string * any)) :
  Forall (fun kv => json_Marshal (snd kv) <> None) m -> marshal_fields m <> None.
Proof.
  induction 1 as [|[k x] m Hx Hall IH]; simpl; [discriminate|].
  simpl in Hx. destruct (json_Marshal x); [|congruence].
  destruct (marshal_fields m); [discriminate | congruence].
Qed.

Lemma In_map_set_other (key k : string) (v x : any) (m : gomap) :
  k <> key -> In (k, x) m -> In (k, x) (map_set key v m).
Proof.
  intros Hne Hin. unfold map_set. right. apply filter_In. split; auto.
  simpl. destruct (String.eqb_spec k key); [congruence | reflexivity].
Qed.

(** X16: [EnableInfo] panics on info data with a value that JSON cannot
    encode, such as a function, under a key that the build information
    does not overwrite; the info route is then not registered. *)
Theorem enable_info_panics_on_unencodable_data
    (info : option BuildInfo) (h : Plain.Handler) (m : gomap) (k : string) (v : any) :
  In (k, v) m ->
  json_Marshal v = None ->
  k <> "version" -> k <> "build_settings" ->
  Plain.EnableInfo info h (Some m) = None.
Proof.
  intros Hin Hv H1 H2. unfold Plain.EnableInfo. rewrite json_Marshal_VMap.
  rewrite (marshal_fields_fail (info_data info (Some m)) k v); auto.
  unfold info_data. destruct info as [bi|]; auto.
  apply In_map_set_other; auto. apply In_map_set_other; auto.
Qed.

(** The theorem at info data with a function value. *)
Lemma enable_info_panics_on_unencodable_data_witness :
  In ("hook", VFunc) unencodable_data
  /\ forall h, Plain.EnableInfo (Some (mkBuildInfo "" [])) h (Some unencodable_data) = None.
Proof.
  assert (Hin : In ("hook", VFunc) unencodable_data) by (right; left; reflexivity).
  split; [exact Hin|]. intros h.
  apply (enable_info_panics_on_unencodable_data _ h unencodable_data "hook" VFunc Hin eq_refl);
    discriminate.
Defined.

Lemma encodable_map_set (key : string) (v : any) (m : gomap) :
  json_Marshal v <> None ->
  Forall (fun kv => json_Marshal (snd kv) <> None) m ->
  Forall (fun kv => json_Marshal (snd kv) <> None) (map_set key v m).
Proof.
  intros Hv Hm. unfold map_set. constructor; auto.
  apply Forall_forall. intros kv Hin. apply filter_In in Hin.
  rewrite Forall_forall in Hm. apply Hm. apply Hin.
Qed.

Lemma encodable_VMap (m : gomap) :
  Forall (fun kv => json_Marshal (snd kv) <> None) m -> json_Marshal (VMap m) <> None.
Proof.
  intros H. rewrite json_Marshal_VMap.
  pose proof (marshal_fields_ok m H) as Hf.
  destruct (marshal_fields m); [discriminate | congruence].
Qed.

Lemma encodable_settings (ss : list (string * string)) :
  Forall (fun kv => json_Marshal (snd kv) <> None) (settings_map ss).
Proof.
  unfold settings_map.
  assert (H : forall m, Forall (fun kv => json_Marshal (snd kv) <> None) m ->
                Forall (fun kv => json_Marshal (snd kv) <> None)
                  (fold_left (fun m s => map_set (fst s) (VString (snd s)) m) ss m)).
  { induction ss as [|s ss IH]; intros m Hm; simpl; auto.
    apply IH. apply encodable_map_set; auto. discriminate. }
  apply H. constructor.
Qed.

Lemma encodable_info_data (info : option BuildInfo) (infoData : option gomap) :
  (forall m, infoData = Some m -> Forall (fun kv => json_Marshal (snd kv) <> None) m) ->
  json_Marshal (VMap (info_data info infoData)) <> None.
Proof.
  intros H. apply encodable_VMap. unfold info_data.
  assert (Hm : Forall (fun kv => json_Marshal (snd kv) <> None)
                 match infoData with
                 | Some m => m
                 | None => []
                 end).
  { destruct infoData as [m|]; [apply H; reflexivity | constructor]. }
  destruct info as [bi|]; auto.
  apply encodable_map_set; [apply encodable_VMap, encodable_settings|].
  apply encodable_map_set; auto. discriminate.
Qed.

Lemma perform_all_base (ops : list operation) :
  forall h h', at_rest h -> Plain.mux h = base_mux ->
    forallb (fun op => negb (enables op)) ops = true ->
    perform_all h ops = Some h' -> Plain.mux h' = base_mux.
Proof.
  induction ops as [|op ops IH]; simpl; intros h h' Hr Hm Hno.
  - intros [= <-]. exact Hm.
  - apply andb_prop in Hno. destruct Hno as [Hop Hno].
    destruct (perform h op) as [h1|] eqn:E; [|discriminate].
    destruct (perform_spec _ _ _ Hr E) as [Hr1 _].
    apply IH; auto.
    destruct Hr as [Hl _].
    destruct op as [c|c|info d|sched now w r]; simpl in E, Hop; try discriminate.
    + rewrite AddCheck_spec in E by auto. injection E as <-. exact Hm.
    + unfold Plain.AddCheckFunc in E. rewrite AddCheck_spec in E by auto.
      injection E as <-. exact Hm.
    + destruct (Plain.ServeHTTP sched h now w r) as [[h2 s]|] eqn:E2; [|discriminate].
      injection E as <-. apply ServeHTTP_handler in E2; auto. subst h2. exact Hm.
Qed.

Lemma enable_info_succeeds_on_encodable_data_aux (h : Plain.Handler)
    (info : option BuildInfo) (infoData : option gomap) :
  Plain.mux h = base_mux ->
  (forall m, infoData = Some m -> Forall (fun kv => json_Marshal (snd kv) <> None) m) ->
  exists h1,
    Plain.EnableInfo info h infoData = Some h1
    /\ Plain.mux h1 = info_mux
    /\ Plain.checks h1 = Plain.checks h
    /\ Plain.errorLogFunc h1 = Plain.errorLogFunc h
    /\ json_Marshal (VMap (info_data info infoData)) = Some (Plain.infoPayload h1).
Proof.
  intros Hm Henc.
  pose proof (encodable_info_data info infoData Henc) as Hj.
  unfold Plain.EnableInfo. rewrite Hm.
  destruct (json_Marshal (VMap (info_data info infoData))) as [payload|]; [|congruence].
  eexists. split; [reflexivity|]. simpl. auto.
Qed.

(** X17: on a handler on which [EnableInfo] has not been called,
    [EnableInfo] does not panic when every value of the info data can
    be encoded, and in particular when the info data is nil, whatever
    the build information is.  It registers the info route and leaves
    the registry and the error log function as they are. *)
Theorem enable_info_succeeds_on_encodable_data
    (f : option callback) (ops : list operation) (h : Plain.Handler)
    (info : option BuildInfo) (infoData : option gomap) :
  after f ops = Some h ->
  forallb (fun op => negb (enables op)) ops = true ->
  (forall m, infoData = Some m -> Forall (fun kv => json_Marshal (snd kv) <> None) m) ->
  exists h1,
    Plain.EnableInfo info h infoData = Some h1
    /\ Plain.mux h1 = info_mux
    /\ Plain.checks h1 = Plain.checks h
    /\ Plain.errorLogFunc h1 = Plain.errorLogFunc h
    /\ json_Marshal (VMap (info_data info infoData)) = Some (Plain.infoPayload h1).
Proof.
  intros Ha Hno Henc.
  assert (Hm : Plain.mux h = base_mux).
  { unfold after in Ha. rewrite New_spec in Ha.
    apply (perform_all_base ops _ h) in Ha; auto. split; simpl; auto. }
  apply enable_info_succeeds_on_encodable_data_aux; auto.
Qed.

(** The theorem at [EnableInfo(nil)] on a handler with a check. *)
Lemma enable_info_succeeds_on_encodable_data_witness :
  exists h h1,
    after None [OpAddCheck (Ret None)] = Some h
    /\ Plain.EnableInfo (Some (mkBuildInfo "v1.0.0" [("vcs", "git")])) h None = Some h1
    /\ Plain.mux h1 = info_mux.
Proof.
  assert (Ha : exists h, after None [OpAddCheck (Ret None)] = Some h)
    by (eexists; reflexivity).
  destruct Ha as [h Ha].
  destruct (enable_info_succeeds_on_encodable_data None _ h
              (Some (mkBuildInfo "v1.0.0" [("vcs", "git")])) None Ha eq_refl)
    as (h1 & He & Hm & _).
  - intros m [=].
  - exists h, h1. auto.
Defined.

(** X18: the first revision of [EnableInfo] has no nil check.  With nil
    info data it panics whenever the build information can be read, and
    otherwise serves [null]; the later revision serves an object in
    both cases.  On info data that is not nil the two revisions do the
    same. *)
Theorem early_enable_info_panics_on_nil_data
    (f : option callback) (ops : list operation) (h : Plain.Handler) :
  after f ops = Some h ->
  forallb (fun op => negb (enables op)) ops = true ->
  (forall bi, Early.EnableInfo (Some bi) h None = None
              /\ Plain.EnableInfo (Some bi) h None <> None)
  /\ (exists h1 h2,
        Early.EnableInfo None h None = Some h1 /\ Plain.infoPayload h1 = "null"
        /\ Plain.EnableInfo None h None = Some h2 /\ Plain.infoPayload h2 = "{}")
  /\ (forall info m, Early.EnableInfo info h (Some m) = Plain.EnableInfo info h (Some m)).
Proof.
  intros Ha Hno.
  assert (Hm : Plain.mux h = base_mux).
  { unfold after in Ha. rewrite New_spec in Ha.
    apply (perform_all_base ops _ h) in Ha; auto. split; simpl; auto. }
  split; [|split].
  - intros bi. split; [reflexivity|].
    destruct (enable_info_succeeds_on_encodable_data_aux h (Some bi) None Hm) as (h1 & -> & _);
      [intros m [=] | discriminate].
  - unfold Early.EnableInfo, Plain.EnableInfo. rewrite Hm. simpl.
    eexists. eexists. repeat split.
  - intros info m. unfold Early.EnableInfo, Plain.EnableInfo, info_data.
    destruct info; reflexivity.
Qed.

(** The theorem at a handler that was just made. *)
Lemma early_enable_info_panics_on_nil_data_witness :
  exists h,
    after None [] = Some h
    /\ Early.EnableInfo (Some (mkBuildInfo "" [])) h None = None
    /\ Plain.EnableInfo (Some (mkBuildInfo "" [])) h None <> None.
Proof.
  assert (Ha : exists h, after None [] = Some h) by (eexists; reflexivity).
  destruct Ha as [h Ha]. exists h. split; [exact Ha|].
  apply (early_enable_info_panics_on_nil_data None [] h Ha eq_refl).
Defined.

(* ------------------------------------------------------------------ *)
(** ** Probes under a deadline *)

Lemma wrapped_sentinel_hides (msg : string) (n : nat) (text : string) :
  hides_context_errors (wrapError msg (errorString n text)).
Proof. split; reflexivity. Qed.

Lemma bundled_hides (NR : string -> string -> OutRequest + error) (DC : Client)
    (c : Check) :
  bundled NR DC c -> may_return hides_context_errors c.
Proof.
  assert (Hhttp : forall method url client,
             may_return hides_context_errors (CheckHTTPResponse NR DC method url client)).
  { intros method url client. unfold CheckHTTPResponse, CheckFunc_Check.
    destruct (NR method url) as [req|err].
    - apply may_return_bind. intros [res|err]; simpl.
      + destruct (res_StatusCode res >=? StatusBadRequest); simpl; auto.
        apply wrapped_sentinel_hides.
      + apply wrapped_sentinel_hides.
    - simpl. apply wrapped_sentinel_hides. }
  intros [method url client | url | pinger].
  - apply Hhttp.
  - apply Hhttp.
  - unfold CheckPing, CheckFunc_Check. apply may_return_bind.
    intros [e|]; simpl; auto. apply wrapped_sentinel_hides.
Qed.

(** X19: a bundled probe that runs into the deadline, or is canceled by
    the failure of another check, does not fail with the error of the
    context: when only bundled probes are registered, the error of
    [ExecuteReadyChecks] is never one for which
    [errors.Is(err, context.DeadlineExceeded)] or
    [errors.Is(err, context.Canceled)] holds. *)
Theorem bundled_probes_hide_the_context_error
    (NR : string -> string -> OutRequest + error) (DC : Client)
    (sched : scheduler) (h : Timed.Handler) (now : Z) (ctx : Context) :
  writer (Timed.lock h) = false ->
  Forall (bundled NR DC) (Timed.checks h) ->
  exists x,
    Timed.ExecuteReadyChecks sched h now ctx = Some (h, x)
    /\ (forall err, Timed.ex_err x = Some err ->
          errors_Is err DeadlineExceeded = false /\ errors_Is err Canceled = false).
Proof.
  intros Hw Hb. eexists. split; [apply ExecuteReadyChecks_spec; exact Hw|]. fields.
  intros err He.
  apply (@evaluate_may_return hides_context_errors sched
           (Timed.ready_context h now ctx) now (Timed.checks h) err); auto.
  eapply Forall_impl; [|exact Hb]. intros c. apply bundled_hides.
Qed.

(** The theorem at a ping that takes five ticks under a timeout of two:
    the evaluation fails at the deadline, with a ping failure. *)
Lemma bundled_probes_hide_the_context_error_witness :
  writer (Timed.lock pinging_timed) = false
  /\ Forall (bundled accept_all slow_client) (Timed.checks pinging_timed)
  /\ exists x err,
      Timed.ExecuteReadyChecks (fun n => n) pinging_timed 0 Background
      = Some (pinging_timed, x)
      /\ Timed.ex_now x = 2
      /\ Timed.ex_err x = Some err
      /\ errors_Is err ErrPingCheckFailed = true
      /\ errors_Is err DeadlineExceeded = false.
Proof.
  assert (Hb : Forall (bundled accept_all slow_client) (Timed.checks pinging_timed)).
  { repeat constructor. }
  split; [reflexivity|]. split; [exact Hb|].
  destruct (bundled_probes_hide_the_context_error accept_all slow_client (fun n => n)
              pinging_timed 0 Background eq_refl Hb) as (x & Hx & Hh).
  assert (He : exists err, Timed.ex_err x = Some err
                           /\ Timed.ex_now x = 2
                           /\ errors_Is err ErrPingCheckFailed = true).
  { injection Hx as <-. eexists. repeat split. }
  destruct He as (err & He & Hn & Hp). exists x, err.
  split; [exact Hx|]. split; [exact Hn|]. split; [exact He|]. split; [exact Hp|].
  apply (Hh err He).
Defined.

(* ------------------------------------------------------------------ *)
(** ** Requests whose context is done, and checks that take their time *)

Lemma step_stalled (n0 : Z) (c : nat) (g : Group) :
  stalled n0 g -> all_finished g = false -> stalled n0 (step c g).
Proof.
  intros (Hd & Hn & Hall) Hf.
  pose proof (step_poised c g Hf Hall) as Hall'.
  unfold stalled. split; [|split; [|exact Hall']]; clear Hall';
    destruct (step_cases c g) as [[Hen ->] | (i & r & Hi & Hen & ->)].
  - pose proof (tick_undone _ _ _ Hall Hen Hf). contradiction.
  - destruct (act_spec g i Hi Hen) as (_ & _ & _ & -> & [(err & _ & _ & _ & ->) | (_ & _ & ->)]).
    + apply done_cancel.
    + exact Hd.
  - pose proof (tick_undone _ _ _ Hall Hen Hf). contradiction.
  - destruct (act_spec g i Hi Hen) as (_ & _ & _ & -> & _). exact Hn.
Qed.

Lemma evaluate_stalled (sched : scheduler) (ctx : Context) (now : Z) (cs : list Check) :
  done ctx now <> None ->
  Forall responsive cs ->
  g_now (evaluate sched ctx now cs) = now.
Proof.
  intros Hd Hall.
  destruct (evaluate_awaited sched ctx now cs) as (_ & _ & ->).
  assert (H : stalled now (awaited sched ctx now cs)).
  { apply awaited_invariant.
    - intros c g. apply step_stalled.
    - unfold stalled; simpl. split; auto. split; auto.
      apply Forall_map. eapply Forall_impl; [|exact Hall].
      intros t Ht. simpl. split; auto. apply responsive_settled; auto. }
  destruct H as (_ & H & _). exact H.
Qed.

(** X20: when the context of a readiness request is already done (the
    client is gone, or its deadline has passed) and the checks watch
    their context, [handleReady] answers at the instant of the request. *)
Theorem abandoned_request_returns_at_once
    (sched : scheduler) (h : Plain.Handler) (now : Z) (w : ResponseWriter) (r : Request) :
  writer (Plain.lock h) = false ->
  Err (req_Context r) now <> None ->
  Forall responsive (Plain.checks h) ->
  exists s,
    Plain.handleReady sched h now w r = Some (h, s)
    /\ sv_now s = now
    /\ Forall (fun r => finished r = true) (sv_routines s).
Proof.
  intros Hw He Hall. eexists. split; [apply handleReady_spec; exact Hw|]. fields.
  split; [|apply evaluate_finished].
  apply evaluate_stalled; auto.
  unfold Err in He. destruct (done (req_Context r) now); [discriminate|].
  exfalso. apply He. reflexivity.
Qed.

(** The theorem at a canceled request and a check that would wait ten
    ticks. *)
Lemma abandoned_request_returns_at_once_witness :
  writer (Plain.lock patient_plain) = false
  /\ Err (req_Context abandoned) 4 <> None
  /\ Forall responsive (Plain.checks patient_plain)
  /\ exists s,
      Plain.handleReady (fun n => n) patient_plain 4 NewRecorder abandoned
      = Some (patient_plain, s)
      /\ sv_now s = 4.
Proof.
  assert (Hr : Forall responsive (Plain.checks patient_plain)).
  { repeat constructor. }
  assert (He : Err (req_Context abandoned) 4 <> None) by discriminate.
  split; [reflexivity|]. split; [exact He|]. split; [exact Hr|].
  destruct (abandoned_request_returns_at_once (fun n => n) patient_plain 4 NewRecorder
              abandoned eq_refl He Hr) as (s & Hs & Hn & _).
  exists s. auto.
Defined.

Lemma acts_busy (k : nat) (n0 : Z) (ctx : Context) (now : Z) (r r' : goroutine) :
  busy k n0 now r -> acts ctx now r r' -> busy k n0 now r'.
Proof.
  intros H Ha. destruct Ha as [e|f|d t rs Hd]; simpl in *.
  - destruct H as (m & -> & Hm). lia.
  - destruct H as (m & Hm & Hb). exists m. auto.
  - destruct H as (m & [Hm _] & Hb). exists m. auto.
Qed.

Lemma takes_zero (t : task (option error)) : takes O t.
Proof. induction t; simpl; auto. Qed.

Lemma advance_busy (k : nat) (n0 now : Z) (r : goroutine) :
  busy k n0 now r -> busy k n0 (now + 1) (advance r).
Proof.
  destruct r as [[e|t|d t|f]|e]; simpl.
  - intros (m & -> & Hb). exists O. split; auto. lia.
  - intros (m & Hm & Hb). destruct m as [|m].
    + exists O. split; [apply takes_zero|]. lia.
    + exists m. split; auto. lia.
  - intros (m & [_ Hm] & Hb). destruct m as [|m].
    + exists O. split; [apply takes_zero|]. lia.
    + exists m. split; auto. lia.
  - intros (m & Hm & Hb). exists m. split; auto. lia.
  - lia.
Qed.

Lemma step_busy (k : nat) (n0 : Z) (cs : list Check) (c : nat) (g : Group) :
  Forall2 (fun x r => takes k x -> busy k n0 (g_now g) r) cs (g_routines g) ->
  Forall2 (fun x r => takes k x -> busy k n0 (g_now (step c g)) r) cs
    (g_routines (step c g)).
Proof.
  intros H. destruct (step_cases c g) as [[_ ->] | (i & r & Hi & Hen & ->)].
  - simpl. eapply Forall2_map_right_In; [exact H|].
    intros x r _ Hxr Hx. apply advance_busy. auto.
  - destruct (act_spec g i Hi Hen) as (r' & Ha & -> & -> & _).
    eapply Forall2_set_nth; eauto.
    intros x Hxr Hx. eapply acts_busy; eauto.
Qed.

(** An evaluation does not return before a check that takes at least
    [k] ticks has returned. *)
Lemma evaluate_busy (sched : scheduler) (ctx : Context) (now : Z) (cs : list Check)
    (k : nat) :
  Exists (takes k) cs ->
  now + Z.of_nat k <= g_now (evaluate sched ctx now cs).
Proof.
  intros Hex.
  destruct (evaluate_awaited sched ctx now cs) as (_ & _ & ->).
  pose proof (awaited_finished sched ctx now cs) as Hf.
  assert (H : Forall2 (fun x r => takes k x -> busy k now (g_now (awaited sched ctx now cs)) r)
                cs (g_routines (awaited sched ctx now cs))).
  { apply (@awaited_invariant sched ctx now cs
             (fun g => Forall2 (fun x r => takes k x -> busy k now (g_now g) r) cs
                         (g_routines g))).
    - intros c g Hg _. apply step_busy. exact Hg.
    - simpl. clear. induction cs as [|c cs IH]; simpl; constructor; auto.
      intros Hc. exists k. split; auto. lia. }
  destruct (@Forall2_Exists_right _ _ _ _ _ _ H Hex) as (r & Hin & Hr).
  unfold all_finished in Hf. rewrite forallb_forall in Hf. specialize (Hf r Hin).
  destruct r as [t|e]; [discriminate|]. exact Hr.
Qed.

(** X21: [ExecuteReadyChecks] waits for every check.  A check that
    takes at least [k] ticks whatever its context says keeps it from
    returning before [k] ticks have passed, whatever the timeout is and
    whether another check has failed or not. *)
Theorem evaluation_waits_for_every_check
    (sched : scheduler) (h : Timed.Handler) (now : Z) (ctx : Context) (k : nat) :
  writer (Timed.lock h) = false ->
  Exists (takes k) (Timed.checks h) ->
  exists x,
    Timed.ExecuteReadyChecks sched h now ctx = Some (h, x)
    /\ now + Z.of_nat k <= Timed.ex_now x
    /\ Forall (fun r => finished r = true) (Timed.ex_routines x).
Proof.
  intros Hw Hex. eexists. split; [apply ExecuteReadyChecks_spec; exact Hw|]. fields.
  split; [apply evaluate_busy; exact Hex | apply evaluate_finished].
Qed.

(** The theorem at a check that sleeps three ticks under a timeout of
    one. *)
Lemma evaluation_waits_for_every_check_witness :
  writer (Timed.lock slow_handler) = false
  /\ Exists (takes 3) (Timed.checks slow_handler)
  /\ exists x,
      Timed.ExecuteReadyChecks (fun _ => O) slow_handler 0 Background
      = Some (slow_handler, x)
      /\ 0 + 3 <= Timed.ex_now x.
Proof.
  assert (Hex : Exists (takes 3) (Timed.checks slow_handler)).
  { left. simpl. reflexivity. }
  split; [reflexivity|]. split; [exact Hex|].
  destruct (evaluation_waits_for_every_check (fun _ => O) slow_handler 0 Background 3
              eq_refl Hex) as (x & Hx & Hn & _).
  exists x. split; [exact Hx | exact Hn].
Defined.
